(** * LS-8 simulator: a shallow embedding of [cpu.py] and [cpu_additions.py]

    The two Python classes are embedded as state-passing programs over one
    record of CPU attributes.  Python lists keep their subscripting rules
    (negative indices count from the end, anything else out of range raises
    [IndexError]); Python integers are unbounded, hence [Z]. *)

From Stdlib Require Import ZArith String Lia.
From stdpp Require Import base list gmap.

Local Open Scope string_scope.
Local Open Scope Z_scope.

(** ** Python runtime: exceptions, list subscripting, printed lines *)

Inductive exn : Type :=
| IndexError                      (* list index out of range *)
| KeyError (key : Z)              (* dict subscript on an absent key *)
| AttributeError (name : string)  (* attribute read before any assignment *)
| Exception (msg : string).       (* raise Exception(msg) *)

Inductive result (A : Type) : Type :=
| Ok (a : A)
| Raise (e : exn).
Arguments Ok {A} a.
Arguments Raise {A} e.

(** A value handed to [alu] as its [op] argument: the callers pass either a
    string literal or one of the integer opcode constants. *)
Inductive pyval : Type :=
| PyStr (s : string)
| PyInt (z : Z).

(** Python's [==] between such values; a string never equals an int. *)
Definition py_eq (x y : pyval) : bool :=
  match x, y with
  | PyStr a, PyStr b => String.eqb a b
  | PyInt a, PyInt b => Z.eqb a b
  | _, _ => false
  end.

(** A line written by [print]. *)
Inductive line : Type :=
| PrintInt (z : Z)
| PrintStr (s : string).

(** [subscript len i]: the position that index [i] denotes in a list of
    length [len], if any. *)
Definition subscript (len i : Z) : option nat :=
  if bool_decide (0 ≤ i < len) then Some (Z.to_nat i)
  else if bool_decide (- len ≤ i < 0) then Some (Z.to_nat (len + i))
  else None.

(** [l[i]] *)
Definition getitem (l : list Z) (i : Z) : result Z :=
  match subscript (Z.of_nat (length l)) i with
  | Some n => match l !! n with Some v => Ok v | None => Raise IndexError end
  | None => Raise IndexError
  end.

(** [l[i] = v] *)
Definition setitem (l : list Z) (i v : Z) : result (list Z) :=
  match subscript (Z.of_nat (length l)) i with
  | Some n => Ok (<[n := v]> l)
  | None => Raise IndexError
  end.

(** ** Instruction codes (identical in both files, [cpu.py] has the first
    ten and the two masks) *)

Definition HLT  : Z := 0x01.  (* 0b00000001 *)
Definition LDI  : Z := 0x82.  (* 0b10000010 *)
Definition PRN  : Z := 0x47.  (* 0b01000111 *)
Definition ADD  : Z := 0xa0.  (* 0b10100000 *)
Definition SUB  : Z := 0xa1.  (* 0b10100001 *)
Definition MUL  : Z := 0xa2.  (* 0b10100010 *)
Definition INC  : Z := 0x65.  (* 0b01100101 *)
Definition DEC  : Z := 0x66.  (* 0b01100110 *)
Definition PUSH : Z := 0x45.  (* 0b01000101 *)
Definition POP  : Z := 0x46.  (* 0b01000110 *)
Definition CALL : Z := 0x50.  (* 0b01010000 *)
Definition RET  : Z := 0x11.  (* 0b00010001 *)
Definition CMP  : Z := 0xa7.  (* 0b10100111 *)
Definition JMP  : Z := 0x54.  (* 0b01010100 *)
Definition JEQ  : Z := 0x55.  (* 0b01010101 *)
Definition JNE  : Z := 0x56.  (* 0b01010110 *)
Definition OOI  : Z := 0x07.  (* 0b00000111 *)
Definition LIM  : Z := 0xff.  (* 0b11111111 *)

(** ** The CPU object

    [flag] is [None] while the attribute has not been assigned ([__init__]
    does not create it, and [cpu.py] never does).  [console] collects what
    [print] wrote. *)

Record CPU : Type := mkCPU {
  ram : list Z;
  reg : list Z;
  pc : Z;
  sp : Z;
  running : bool;
  flag : option Z;
  console : list line
}.

Definition set_ram (v : list Z) (s : CPU) : CPU :=
  mkCPU v (reg s) (pc s) (sp s) (running s) (flag s) (console s).
Definition set_reg (v : list Z) (s : CPU) : CPU :=
  mkCPU (ram s) v (pc s) (sp s) (running s) (flag s) (console s).
Definition set_pc (v : Z) (s : CPU) : CPU :=
  mkCPU (ram s) (reg s) v (sp s) (running s) (flag s) (console s).
Definition set_running (v : bool) (s : CPU) : CPU :=
  mkCPU (ram s) (reg s) (pc s) (sp s) v (flag s) (console s).
Definition set_flag (v : Z) (s : CPU) : CPU :=
  mkCPU (ram s) (reg s) (pc s) (sp s) (running s) (Some v) (console s).
Definition emit (l : line) (s : CPU) : CPU :=
  mkCPU (ram s) (reg s) (pc s) (sp s) (running s) (flag s) (console s ++ [l]).

(** [__init__] (the branch table of [cpu_additions.py] is a constant of its
    module below). *)
Definition CPU_init : CPU :=
  mkCPU (replicate 256 0) (replicate 8 0) 0 7 true None [].

(** ** Methods as state-passing computations that may raise

    A raised exception keeps the state as it was mutated so far, as the
    Python object would be left. *)

Definition M (A : Type) : Type := CPU → result A * CPU.

Definition ret {A} (a : A) : M A := λ s, (Ok a, s).
Definition raise {A} (e : exn) : M A := λ s, (Raise e, s).
Definition bind {A B} (m : M A) (k : A → M B) : M B :=
  λ s, match m s with
       | (Ok a, s') => k a s'
       | (Raise e, s') => (Raise e, s')
       end.
Definition gets {A} (f : CPU → A) : M A := λ s, (Ok (f s), s).
Definition modify (f : CPU → CPU) : M unit := λ s, (Ok tt, f s).
Definition lift {A} (r : result A) : M A := λ s, (r, s).

Notation "x <- m ;; k" := (bind m (λ x, k))
  (at level 90, m at level 89, right associativity, only parsing).
Notation "m ;;; k" := (bind m (λ _, k))
  (at level 90, right associativity, only parsing).

(** [self.ram[i]], [self.ram[i] = v], [self.reg[i]], [self.reg[i] = v],
    [self.pc += n], [print(x)] *)
Definition ram_load (i : Z) : M Z := r <- gets ram ;; lift (getitem r i).
Definition ram_store (i v : Z) : M unit :=
  r <- gets ram ;; r' <- lift (setitem r i v) ;; modify (set_ram r').
Definition reg_load (i : Z) : M Z := r <- gets reg ;; lift (getitem r i).
Definition reg_store (i v : Z) : M unit :=
  r <- gets reg ;; r' <- lift (setitem r i v) ;; modify (set_reg r').
Definition pc_add (n : Z) : M unit := modify (λ s, set_pc (pc s + n) s).
Definition print (l : line) : M unit := modify (emit l).

(** Methods shared verbatim by the two classes. *)
Definition ram_read (address : Z) : M Z := ram_load address.
Definition ram_write (value address : Z) : M unit := ram_store address value.

(** The write loop of [load], over the integers parsed from the file's
    lines: [self.ram[address] = int(line, 2); address += 1]. *)
Fixpoint load_from (address : Z) (program : list Z) : M unit :=
  match program with
  | [] => ret tt
  | byte :: rest => ram_store address byte ;;; load_from (address + 1) rest
  end.
Definition load (program : list Z) : M unit := load_from 0 program.

(** State of the object after a [load] that did not raise. *)
Definition loaded (program : list Z) : CPU := snd (load program CPU_init).

(** Outcome of a bounded number of iterations of a [while self.running]
    loop: [None] when the loop is still running after [fuel] iterations. *)
Definition outcome : Type := option (result unit) * CPU.

Definition loop (step : M unit) : nat → CPU → outcome :=
  fix go (fuel : nat) (s : CPU) : outcome :=
    if running s then
      match fuel with
      | O => (None, s)
      | S n => match step s with
               | (Ok _, s') => go n s'
               | (Raise e, s') => (Some (Raise e), s')
               end
      end
    else (Some (Ok tt), s).

(** ** [cpu.py]: the minimal instruction set, dispatched by an if-chain *)

Module Cpu.

Definition alu (op : pyval) (reg_a reg_b : Z) : M unit :=
  if py_eq op (PyStr "ADD") then
    x <- reg_load reg_a ;; y <- reg_load reg_b ;; reg_store reg_a (x + y)
  else if py_eq op (PyStr "SUB") then
    x <- reg_load reg_a ;; y <- reg_load reg_b ;; reg_store reg_a (x - y)
  else if py_eq op (PyStr "MUL") then
    x <- reg_load reg_a ;; y <- reg_load reg_b ;; reg_store reg_a (x * y)
  else if py_eq op (PyStr "INC") then
    x <- reg_load reg_a ;; reg_store reg_a (x + 1) ;;;
    x' <- reg_load reg_a ;; reg_store reg_a (Z.land x' LIM)
  else if py_eq op (PyStr "DEC") then
    x <- reg_load reg_a ;; reg_store reg_a (x - 1) ;;;
    x' <- reg_load reg_a ;; reg_store reg_a (Z.land x' LIM)
  else raise (Exception "Unsupported ALU operation").

Definition ldi (reg_n val : Z) : M unit :=
  let reg_n := Z.land reg_n OOI in
  let val := Z.land val LIM in
  reg_store reg_n val.

(** [push] and [pop] hand [alu] the integer constants [DEC] and [INC]. *)
Definition push (reg_n : Z) : M unit :=
  alu (PyInt DEC) 7 0 ;;;
  let reg_n := Z.land reg_n OOI in
  value <- reg_load reg_n ;;
  address <- reg_load 7 ;;
  ram_write value address.

Definition pop (reg_n : Z) : M unit :=
  let reg_n := Z.land reg_n OOI in
  address <- reg_load 7 ;;
  mem_data_reg <- ram_read address ;;
  ldi reg_n mem_data_reg ;;;
  alu (PyInt INC) 7 0.

(** One iteration of the body of [run]'s loop. *)
Definition step : M unit :=
  p <- gets pc ;; instruction_register <- ram_read p ;;
  p <- gets pc ;; operand_a <- ram_read (p + 1) ;;
  p <- gets pc ;; operand_b <- ram_read (p + 2) ;;
  if instruction_register =? HLT then
    modify (set_running false)
  else if instruction_register =? LDI then
    reg_store operand_a operand_b ;;; pc_add 3
  else if instruction_register =? PRN then
    v <- reg_load operand_a ;; print (PrintInt v) ;;; pc_add 2
  else if instruction_register =? ADD then
    alu (PyStr "ADD") operand_a operand_b ;;; pc_add 3
  else if instruction_register =? SUB then
    alu (PyStr "SUB") operand_a operand_b ;;; pc_add 3
  else if instruction_register =? MUL then
    alu (PyStr "MUL") operand_a operand_b ;;; pc_add 3
  else if instruction_register =? PUSH then
    push operand_a
  else if instruction_register =? POP then
    pop operand_a
  else
    print (PrintStr "Instruction not valid").

Definition run : nat → CPU → outcome := loop step.

End Cpu.

(** ** [cpu_additions.py]: the extended set, dispatched by a branch table *)

Module CpuAdditions.

(** [self.flag], an attribute that exists only once [alu] has assigned it *)
Definition flag_load : M Z :=
  f <- gets flag ;;
  match f with
  | Some v => ret v
  | None => raise (AttributeError "flag")
  end.

Definition alu (op : pyval) (reg_a reg_b : Z) : M unit :=
  let reg_a := Z.land reg_a OOI in
  let reg_b := Z.land reg_b OOI in
  if py_eq op (PyStr "ADD") then
    x <- reg_load reg_a ;; y <- reg_load reg_b ;; reg_store reg_a (x + y)
  else if py_eq op (PyStr "SUB") then
    x <- reg_load reg_a ;; y <- reg_load reg_b ;; reg_store reg_a (x - y)
  else if py_eq op (PyStr "MUL") then
    x <- reg_load reg_a ;; y <- reg_load reg_b ;; reg_store reg_a (x * y)
  else if py_eq op (PyStr "INC") then
    x <- reg_load reg_a ;; reg_store reg_a (x + 1) ;;;
    x' <- reg_load reg_a ;; reg_store reg_a (Z.land x' LIM)
  else if py_eq op (PyStr "DEC") then
    x <- reg_load reg_a ;; reg_store reg_a (x - 1) ;;;
    x' <- reg_load reg_a ;; reg_store reg_a (Z.land x' LIM)
  else if py_eq op (PyStr "CMP") then
    x <- reg_load reg_a ;; y <- reg_load reg_b ;;
    if x =? y then modify (set_flag HLT)
    else
      x <- reg_load reg_a ;; y <- reg_load reg_b ;;
      if x <? y then modify (set_flag 4)          (* 0b00000100 *)
      else
        x <- reg_load reg_a ;; y <- reg_load reg_b ;;
        if x >? y then modify (set_flag 2)        (* 0b00000010 *)
        else ret tt
  else raise (Exception "Unsupported ALU operation").

Definition ldi (operand_a operand_b : Z) : M unit :=
  let operand_a := Z.land operand_a OOI in
  let operand_b := Z.land operand_b LIM in
  reg_store operand_a operand_b ;;;
  pc_add 3.

(** The method named [print] in the class. *)
Definition print_ (operand_a operand_b : Z) : M unit :=
  v <- reg_load operand_a ;; print (PrintInt v) ;;;
  pc_add 2.

Definition halt (operand_a operand_b : Z) : M unit :=
  modify (set_running false).

Definition add (operand_a operand_b : Z) : M unit :=
  alu (PyStr "ADD") operand_a operand_b ;;; pc_add 3.

Definition subtract (operand_a operand_b : Z) : M unit :=
  alu (PyStr "SUB") operand_a operand_b ;;; pc_add 3.

Definition multiply (operand_a operand_b : Z) : M unit :=
  alu (PyStr "MUL") operand_a operand_b ;;; pc_add 3.

Definition compare (operand_a operand_b : Z) : M unit :=
  alu (PyStr "CMP") operand_a operand_b ;;; pc_add 3.

Definition jump (operand_a operand_b : Z) : M unit :=
  target <- reg_load operand_a ;; modify (set_pc target).

Definition jump_if_equal (operand_a operand_b : Z) : M unit :=
  f <- flag_load ;;
  if f =? HLT then
    target <- reg_load operand_a ;; modify (set_pc target)
  else pc_add 2.

Definition jump_if_not_equal (operand_a operand_b : Z) : M unit :=
  f <- flag_load ;;
  if negb (f =? HLT) then
    target <- reg_load operand_a ;; modify (set_pc target)
  else pc_add 2.

(** [self.reg[self.sp] -= 1] and [self.reg[self.sp] += 1] *)
Definition sp_add (n : Z) : M unit :=
  i <- gets sp ;; x <- reg_load i ;; i' <- gets sp ;; reg_store i' (x + n).

Definition push (operand_a operand_b : Z) : M unit :=
  sp_add (-1) ;;;
  value <- reg_load operand_a ;;
  i <- gets sp ;; address <- reg_load i ;;
  ram_write value address ;;;
  pc_add 2.

Definition pop (operand_a operand_b : Z) : M unit :=
  i <- gets sp ;; address <- reg_load i ;;
  value <- ram_read address ;;
  reg_store operand_a value ;;;
  sp_add 1 ;;;
  pc_add 2.

Definition call (operand_a operand_b : Z) : M unit :=
  sp_add (-1) ;;;
  p <- gets pc ;;
  i <- gets sp ;; address <- reg_load i ;;
  ram_write (p + 2) address ;;;
  target <- reg_load operand_a ;; modify (set_pc target).

Definition _return (operand_a operand_b : Z) : M unit :=
  i <- gets sp ;; address <- reg_load i ;;
  value <- ram_read address ;;
  modify (set_pc value) ;;;
  sp_add 1.

Definition branchtable : gmap Z (Z → Z → M unit) :=
  list_to_map
    [ (HLT, halt); (LDI, ldi); (PRN, print_); (ADD, add);
      (SUB, subtract); (MUL, multiply); (PUSH, push); (POP, pop);
      (CALL, call); (RET, _return); (CMP, compare);
      (JEQ, jump_if_equal); (JNE, jump_if_not_equal); (JMP, jump) ].

(** One iteration of the body of [run]'s loop. *)
Definition step : M unit :=
  p <- gets pc ;; IR <- ram_read p ;;
  p <- gets pc ;; operand_a <- ram_read (p + 1) ;;
  p <- gets pc ;; operand_b <- ram_read (p + 2) ;;
  match branchtable !! IR with
  | Some handler => handler operand_a operand_b
  | None => raise (KeyError IR)
  end.

Definition run : nat → CPU → outcome := loop step.

End CpuAdditions.

(** * Properties *)

(** ** Subscripting *)

Lemma subscript_nonneg len i :
  0 ≤ i < len → subscript len i = Some (Z.to_nat i).
Proof. intros H. unfold subscript. by rewrite bool_decide_eq_true_2. Qed.

Lemma subscript_negative len i :
  - len ≤ i < 0 → subscript len i = Some (Z.to_nat (len + i)).
Proof.
  intros H. unfold subscript.
  rewrite bool_decide_eq_false_2 by lia. by rewrite bool_decide_eq_true_2.
Qed.

Lemma subscript_out_of_range len i :
  i < - len ∨ len ≤ i → subscript len i = None.
Proof.
  intros H. unfold subscript.
  rewrite bool_decide_eq_false_2 by lia. by rewrite bool_decide_eq_false_2 by lia.
Qed.


Lemma subscript_bound len i n :
  subscript len i = Some n → (Z.of_nat n < len).
Proof.
  unfold subscript. repeat case_bool_decide; intros [= <-]; lia.
Qed.

Lemma getitem_lookup (l : list Z) i n :
  subscript (Z.of_nat (length l)) i = Some n →
  ∃ v, l !! n = Some v ∧ getitem l i = Ok v.
Proof.
  intros Hs. unfold getitem. rewrite Hs.
  apply subscript_bound in Hs.
  destruct (lookup_lt_is_Some_2 l n) as [v Hv]; [lia|].
  exists v. by rewrite Hv.
Qed.

Lemma getitem_setitem (l l' : list Z) i v :
  setitem l i v = Ok l' → getitem l' i = Ok v ∧ length l' = length l.
Proof.
  unfold setitem, getitem.
  destruct (subscript _ i) as [n|] eqn:Hs; [|done].
  intros [= <-]. rewrite length_insert, Hs.
  apply subscript_bound in Hs.
  rewrite list_lookup_insert_eq by lia. done.
Qed.

Lemma getitem_setitem_ne (l l' : list Z) i j v n m :
  subscript (Z.of_nat (length l)) i = Some n →
  subscript (Z.of_nat (length l)) j = Some m →
  n ≠ m →
  setitem l i v = Ok l' → getitem l' j = getitem l j.
Proof.
  intros Hi Hj Hne. unfold setitem, getitem. rewrite Hi.
  intros [= <-]. rewrite length_insert, Hj.
  by rewrite list_lookup_insert_ne.
Qed.

Lemma loop_unfold step fuel s :
  loop step fuel s =
  if running s then
    match fuel with
    | O => (None, s)
    | S n => match step s with
             | (Ok _, s') => loop step n s'
             | (Raise e, s') => (Some (Raise e), s')
             end
    end
  else (Some (Ok tt), s).
Proof. by destruct fuel. Qed.

Lemma land_OOI_range z : 0 ≤ Z.land z OOI < 8.
Proof.
  change OOI with (Z.ones 3). rewrite Z.land_ones by lia.
  apply Z.mod_pos_bound. lia.
Qed.

Lemma land_OOI_mod z : Z.land z OOI = z mod 8.
Proof. change OOI with (Z.ones 3). by rewrite Z.land_ones by lia. Qed.

Lemma land_OOI_id z : 0 ≤ z ≤ 7 → Z.land z OOI = z.
Proof.
  intros H. change OOI with (Z.ones 3). rewrite Z.land_ones by lia.
  apply Z.mod_small. lia.
Qed.

(** Unfolding of the state-passing combinators. *)
Ltac run_monad :=
  unfold ram_read, ram_write, ram_load, ram_store, reg_load, reg_store,
    pc_add, print, bind, gets, modify, lift, ret, raise in *;
  cbn [fst snd ram reg pc sp running flag console
       set_ram set_reg set_pc set_running set_flag emit] in *.

(** ** The minimal class: ALU calls made by PUSH and POP *)

Lemma alu_int_op_unsupported z reg_a reg_b s :
  Cpu.alu (PyInt z) reg_a reg_b s =
  (Raise (Exception "Unsupported ALU operation"), s).
Proof. reflexivity. Qed.

(** C7.  In [cpu.py] the handler of PUSH calls [alu] with the integer
    constant [DEC] (and POP with [INC]) rather than the names "DEC" and
    "INC", so the first thing an executed PUSH does is raise the
    "Unsupported ALU operation" exception, whatever the state; a program
    that starts with PUSH stops the run loop with that exception. *)
Theorem push_raises_unsupported_alu_operation :
  (∀ reg_n s,
     Cpu.push reg_n s = (Raise (Exception "Unsupported ALU operation"), s)) ∧
  (∀ reg_n,
     fst (Cpu.pop reg_n CPU_init) =
     Raise (Exception "Unsupported ALU operation")) ∧
  Cpu.run 1 (loaded [PUSH; 0]) =
    (Some (Raise (Exception "Unsupported ALU operation")), loaded [PUSH; 0]).
Proof.
  split; [|split].
  - intros reg_n s. unfold Cpu.push, bind.
    by rewrite alu_int_op_unsupported.
  - intros reg_n. unfold Cpu.pop, Cpu.ldi. run_monad.
    change (getitem (reg CPU_init) 7) with (Ok 0). cbv beta iota.
    change (getitem (ram CPU_init) 0) with (Ok 0). cbv beta iota.
    unfold setitem.
    change (Z.of_nat (length (reg CPU_init))) with 8.
    rewrite subscript_nonneg by apply land_OOI_range.
    cbv beta iota. by rewrite alu_int_op_unsupported.
  - vm_compute. reflexivity.
Qed.

(** ** The minimal class: an unrecognised instruction byte *)

Section UnknownOpcode.

Variables (ir a b : Z).
Hypothesis unknown : ir ∉ [HLT; LDI; PRN; ADD; SUB; MUL; PUSH; POP].

(** The fetch of [ir] and of its two candidate operands succeeds. *)
Definition fetches (s : CPU) : Prop :=
  getitem (ram s) (pc s) = Ok ir ∧
  getitem (ram s) (pc s + 1) = Ok a ∧
  getitem (ram s) (pc s + 2) = Ok b.

Lemma step_unknown s :
  fetches s →
  Cpu.step s = (Ok tt, emit (PrintStr "Instruction not valid") s).
Proof using unknown.
  intros (Hi & Ha & Hb). unfold Cpu.step. run_monad.
  rewrite Hi, Ha, Hb.
  repeat match goal with
         | |- context [ir =? ?c] =>
             destruct (Z.eqb_spec ir c) as [E|_];
             [exfalso; apply unknown; rewrite E; set_solver|]
         end.
  reflexivity.
Qed.

Lemma run_unknown fuel : ∀ s,
  running s = true → fetches s →
  ∃ s', Cpu.run fuel s = (None, s') ∧
        running s' = true ∧ pc s' = pc s ∧ ram s' = ram s ∧
        length (console s') = (length (console s) + fuel)%nat.
Proof using unknown.
  induction fuel as [|n IH]; intros s Hrun Hf.
  - exists s. unfold Cpu.run. rewrite loop_unfold, Hrun.
    repeat split; try done; lia.
  - set (s1 := emit (PrintStr "Instruction not valid") s).
    destruct (IH s1) as (s' & Hr & H1 & H2 & H3 & H4); [done..|].
    exists s'. unfold Cpu.run in *.
    rewrite loop_unfold, Hrun, (step_unknown s Hf). fold s1. rewrite Hr.
    repeat split; try done.
    rewrite H4. unfold s1. cbn [console emit]. rewrite length_app.
    simpl. lia.
Qed.

End UnknownOpcode.

(** C1.  In [cpu.py] an instruction byte outside the if-chain only prints
    "Instruction not valid": the iteration leaves [running] set and the
    program counter where it was, so the loop fetches the same byte again
    and again and is still running after any number of iterations. *)
Theorem unknown_opcode_repeats_fetch ir a b s :
  ir ∉ [HLT; LDI; PRN; ADD; SUB; MUL; PUSH; POP] →
  running s = true →
  fetches ir a b s →
  Cpu.step s = (Ok tt, emit (PrintStr "Instruction not valid") s) ∧
  ∀ fuel, ∃ s',
    Cpu.run fuel s = (None, s') ∧ running s' = true ∧ pc s' = pc s ∧
    length (console s') = (length (console s) + fuel)%nat.
Proof.
  intros Hu Hrun Hf. split.
  - by apply (step_unknown ir a b).
  - intros fuel.
    destruct (run_unknown ir a b Hu fuel s Hrun Hf) as (s' & ? & ? & ? & ? & ?).
    by exists s'.
Qed.

Lemma unknown_opcode_repeats_fetch_witness :
  running CPU_init = true ∧ fetches 0 0 0 CPU_init ∧
  Cpu.step CPU_init =
    (Ok tt, emit (PrintStr "Instruction not valid") CPU_init) ∧
  ∀ fuel, ∃ s',
    Cpu.run fuel CPU_init = (None, s') ∧ running s' = true ∧
    pc s' = pc CPU_init ∧
    length (console s') = (length (console CPU_init) + fuel)%nat.
Proof.
  assert (Hf : fetches 0 0 0 CPU_init) by (by vm_compute).
  split; [reflexivity|]. split; [exact Hf|].
  apply (unknown_opcode_repeats_fetch 0 0 0 CPU_init);
    [by apply (bool_decide_unpack _) | reflexivity | exact Hf].
Defined.

(** The extended class stops on such a byte: the branch table has no entry
    for it and the subscript raises [KeyError]. *)
Lemma branchtable_unknown ir :
  ir ∉ [HLT; LDI; PRN; ADD; SUB; MUL; PUSH; POP;
        CALL; RET; CMP; JEQ; JNE; JMP] →
  CpuAdditions.branchtable !! ir = None.
Proof.
  intros Hu. unfold CpuAdditions.branchtable.
  apply not_elem_of_list_to_map_1. exact Hu.
Qed.

Lemma additions_unknown_opcode_raises ir a b s :
  ir ∉ [HLT; LDI; PRN; ADD; SUB; MUL; PUSH; POP;
        CALL; RET; CMP; JEQ; JNE; JMP] →
  fetches ir a b s →
  CpuAdditions.step s = (Raise (KeyError ir), s).
Proof.
  intros Hu (Hi & Ha & Hb). unfold CpuAdditions.step. run_monad.
  rewrite Hi, Ha, Hb. by rewrite (branchtable_unknown ir Hu).
Qed.

(** ** Well-formed CPU objects

    The two lists are created with 256 and 8 slots and [sp] with 7; nothing
    in either class resizes a list or assigns [sp]. *)

Definition wf (s : CPU) : Prop :=
  length (ram s) = 256%nat ∧ length (reg s) = 8%nat ∧ sp s = 7.

(** [preserves P m]: running [m] keeps [P], whether it returns or raises. *)
Definition preserves {A} (P : CPU → Prop) (m : M A) : Prop :=
  ∀ s, P s → P (snd (m s)).

Section Preserves.

Context (P : CPU → Prop).

Lemma preserves_ret {A} (a : A) : preserves P (ret a).
Proof. by intros s. Qed.

Lemma preserves_raise {A} e : preserves P (@raise A e).
Proof. by intros s. Qed.

Lemma preserves_gets {A} (f : CPU → A) : preserves P (gets f).
Proof. by intros s. Qed.

Lemma preserves_lift {A} (r : result A) : preserves P (lift r).
Proof. by intros s. Qed.

Lemma preserves_modify f : (∀ s, P s → P (f s)) → preserves P (modify f).
Proof. intros Hf s. apply Hf. Qed.

Lemma preserves_bind {A B} (m : M A) (k : A → M B) :
  preserves P m → (∀ a, preserves P (k a)) → preserves P (bind m k).
Proof.
  intros Hm Hk s Hs. unfold bind.
  specialize (Hm s Hs). destruct (m s) as [[a|e] s']; simpl in *.
  - by apply Hk.
  - done.
Qed.

End Preserves.

Lemma setitem_length (l l' : list Z) i v :
  setitem l i v = Ok l' → length l' = length l.
Proof. intros H. by apply getitem_setitem in H as [_ ?]. Qed.

Create HintDb preserves_db.

(** Decomposes a computation along its binds and branches, down to the
    operations registered in [preserves_db]. *)
Ltac preserves_steps :=
  repeat first
    [ solve [auto with preserves_db]
    | apply preserves_ret | apply preserves_raise | apply preserves_gets
    | apply preserves_lift
    | apply preserves_bind; [|intros ?]
    | match goal with
      | |- preserves _ (if ?c then _ else _) => destruct c
      | |- preserves _ (match ?c with Some _ => _ | None => _ end) =>
          destruct c eqn:?
      | |- preserves _ (let _ := _ in _) => cbv zeta
      end ].

Lemma wf_ram_store i v : preserves wf (ram_store i v).
Proof.
  intros s (Hram & Hreg & Hsp). unfold ram_store. run_monad.
  destruct (setitem (ram s) i v) as [r|e] eqn:E; [|done].
  apply setitem_length in E. unfold wf. simpl. by rewrite E.
Qed.

Lemma wf_reg_store i v : preserves wf (reg_store i v).
Proof.
  intros s (Hram & Hreg & Hsp). unfold reg_store. run_monad.
  destruct (setitem (reg s) i v) as [r|e] eqn:E; [|done].
  apply setitem_length in E. unfold wf. simpl. by rewrite E.
Qed.

Lemma wf_reg_load i : preserves wf (reg_load i).
Proof. unfold reg_load. preserves_steps. Qed.

Lemma wf_ram_load i : preserves wf (ram_load i).
Proof. unfold ram_load. preserves_steps. Qed.

Lemma wf_pc_add n : preserves wf (pc_add n).
Proof. by apply preserves_modify. Qed.

Lemma wf_set_pc v : preserves wf (modify (set_pc v)).
Proof. by apply preserves_modify. Qed.

Lemma wf_set_flag v : preserves wf (modify (set_flag v)).
Proof. by apply preserves_modify. Qed.

Lemma wf_set_running v : preserves wf (modify (set_running v)).
Proof. by apply preserves_modify. Qed.

Lemma wf_print l : preserves wf (print l).
Proof. by apply preserves_modify. Qed.

#[local] Hint Resolve wf_ram_store wf_reg_store wf_reg_load wf_ram_load
  wf_pc_add wf_set_pc wf_set_flag wf_set_running wf_print : preserves_db.

Ltac preserves_method := unfold ram_read, ram_write; preserves_steps.

Lemma wf_init : wf CPU_init.
Proof. by vm_compute. Qed.

Lemma wf_load_from program : ∀ address, preserves wf (load_from address program).
Proof.
  induction program as [|byte rest IH]; intros address; simpl.
  - apply preserves_ret.
  - apply preserves_bind; [apply wf_ram_store|]. intros _. apply IH.
Qed.

Lemma wf_loaded program : wf (loaded program).
Proof. apply wf_load_from, wf_init. Qed.

Section WfAdditions.

Import CpuAdditions.

Lemma wf_alu op a b : preserves wf (alu op a b).
Proof. unfold alu. preserves_method. Qed.

Lemma wf_sp_add n : preserves wf (sp_add n).
Proof. unfold sp_add. preserves_method. Qed.

#[local] Hint Resolve wf_alu wf_sp_add : preserves_db.

Lemma wf_handlers ir handler a b :
  branchtable !! ir = Some handler → preserves wf (handler a b).
Proof.
  intros H. apply elem_of_list_to_map_2 in H.
  repeat (apply elem_of_cons in H as [[= -> ->]|H]);
    [..|by apply elem_of_nil in H].
  all: unfold halt, ldi, print_, add, subtract, multiply, push, pop,
         call, _return, compare, jump_if_equal, jump_if_not_equal, jump,
         flag_load.
  all: preserves_method.
Qed.

Lemma wf_step : preserves wf step.
Proof.
  unfold step. preserves_method.
  all: by eapply wf_handlers.
Qed.

End WfAdditions.

(** ** The compare flag before the first CMP *)

Definition flag_is (f : option Z) (s : CPU) : Prop := flag s = f.

Lemma flag_ram_store f i v : preserves (flag_is f) (ram_store i v).
Proof.
  intros s Hs. unfold ram_store. run_monad.
  by destruct (setitem (ram s) i v).
Qed.

Lemma flag_reg_store f i v : preserves (flag_is f) (reg_store i v).
Proof.
  intros s Hs. unfold reg_store. run_monad.
  by destruct (setitem (reg s) i v).
Qed.

Lemma flag_pc_add f n : preserves (flag_is f) (pc_add n).
Proof. by apply preserves_modify. Qed.

Lemma flag_set_pc f v : preserves (flag_is f) (modify (set_pc v)).
Proof. by apply preserves_modify. Qed.

Lemma flag_set_running f v : preserves (flag_is f) (modify (set_running v)).
Proof. by apply preserves_modify. Qed.

Lemma flag_print f l : preserves (flag_is f) (print l).
Proof. by apply preserves_modify. Qed.

#[local] Hint Resolve flag_ram_store flag_reg_store flag_pc_add flag_set_pc
  flag_set_running flag_print : preserves_db.

Lemma flag_load_from f program :
  ∀ address, preserves (flag_is f) (load_from address program).
Proof.
  induction program as [|byte rest IH]; intros address; simpl.
  - apply preserves_ret.
  - apply preserves_bind; [apply flag_ram_store|]. intros _. apply IH.
Qed.

Lemma flag_loaded program : flag (loaded program) = None.
Proof. by apply (flag_load_from None program 0 CPU_init). Qed.

(** States the extended engine reaches from a freshly constructed and
    loaded CPU by iterations that did not raise and did not fetch CMP. *)
Inductive before_any_cmp : CPU → Prop :=
| before_fresh program : before_any_cmp (loaded program)
| before_step s s' ir :
    before_any_cmp s →
    getitem (ram s) (pc s) = Ok ir →
    ir ≠ CMP →
    CpuAdditions.step s = (Ok tt, s') →
    before_any_cmp s'.

Section FlagAdditions.

Import CpuAdditions.

Lemma flag_arith f op a b :
  op ≠ PyStr "CMP" → preserves (flag_is f) (alu op a b).
Proof.
  intros Hop. unfold alu.
  destruct op as [name|z]; [|preserves_method].
  cbn [py_eq].
  repeat match goal with
         | |- context [String.eqb name ?c] =>
             destruct (String.eqb_spec name c) as [->|?]
         end; try congruence; preserves_method.
Qed.

Lemma flag_sp_add f n : preserves (flag_is f) (sp_add n).
Proof. unfold sp_add. preserves_method. Qed.

Lemma flag_handlers f ir handler a b :
  branchtable !! ir = Some handler → ir ≠ CMP →
  preserves (flag_is f) (handler a b).
Proof.
  intros H Hir. apply elem_of_list_to_map_2 in H.
  repeat (apply elem_of_cons in H as [[= -> ->]|H]);
    [..|by apply elem_of_nil in H]; try done.
  all: unfold halt, ldi, print_, add, subtract, multiply, push, pop,
         call, _return, jump_if_equal, jump_if_not_equal, jump,
         flag_load.
  all: pose proof (flag_sp_add f).
  all: preserves_method.
  all: by apply flag_arith.
Qed.

Lemma flag_step f s s' ir :
  getitem (ram s) (pc s) = Ok ir → ir ≠ CMP →
  flag s = f → step s = (Ok tt, s') → flag s' = f.
Proof.
  intros Hir Hne Hf Hstep. unfold step in Hstep. run_monad.
  rewrite Hir in Hstep.
  destruct (getitem (ram s) (pc s + 1)) as [a|]; [|done].
  destruct (getitem (ram s) (pc s + 2)) as [b|]; [|done].
  destruct (branchtable !! ir) as [handler|] eqn:E; [|done].
  pose proof (flag_handlers f ir handler a b E Hne s Hf) as Hp.
  by rewrite Hstep in Hp.
Qed.

Lemma before_any_cmp_flag s : before_any_cmp s → flag s = None.
Proof.
  induction 1 as [program|s s' ir _ IH Hir Hne Hstep].
  - apply flag_loaded.
  - by apply (flag_step None s s' ir).
Qed.

End FlagAdditions.

(** C10.  [__init__] never assigns [flag], and no handler but CMP's does:
    in any state reached before a CMP has run the attribute does not exist,
    so JEQ and JNE raise [AttributeError] without touching the program
    counter, and an iteration that fetches either of them raises. *)
Theorem conditional_jump_before_cmp_raises s a b :
  before_any_cmp s →
  flag s = None ∧
  CpuAdditions.jump_if_equal a b s = (Raise (AttributeError "flag"), s) ∧
  CpuAdditions.jump_if_not_equal a b s = (Raise (AttributeError "flag"), s) ∧
  ∀ ir x y, fetches ir x y s → ir = JEQ ∨ ir = JNE →
            CpuAdditions.step s = (Raise (AttributeError "flag"), s).
Proof.
  intros Hs. apply before_any_cmp_flag in Hs.
  assert (Heq : ∀ x y, CpuAdditions.jump_if_equal x y s =
                       (Raise (AttributeError "flag"), s)).
  { intros x y. unfold CpuAdditions.jump_if_equal, CpuAdditions.flag_load.
    run_monad. by rewrite Hs. }
  assert (Hne : ∀ x y, CpuAdditions.jump_if_not_equal x y s =
                       (Raise (AttributeError "flag"), s)).
  { intros x y. unfold CpuAdditions.jump_if_not_equal, CpuAdditions.flag_load.
    run_monad. by rewrite Hs. }
  repeat split; try done.
  intros ir x y (Hi & Hx & Hy) Hir. unfold CpuAdditions.step. run_monad.
  rewrite Hi, Hx, Hy. destruct Hir as [-> | ->].
  - change (CpuAdditions.branchtable !! JEQ)
      with (Some CpuAdditions.jump_if_equal). apply Heq.
  - change (CpuAdditions.branchtable !! JNE)
      with (Some CpuAdditions.jump_if_not_equal). apply Hne.
Qed.

Definition jeq_first : list Z := [LDI; 0; 1; JEQ; 0].

Lemma conditional_jump_before_cmp_raises_witness :
  let s := snd (CpuAdditions.step (loaded jeq_first)) in
  fetches JEQ 0 0 s ∧
  CpuAdditions.step s = (Raise (AttributeError "flag"), s).
Proof.
  intros s.
  assert (Hf : fetches JEQ 0 0 s) by (by vm_compute).
  split; [exact Hf|].
  refine (proj2 (proj2 (proj2
    (conditional_jump_before_cmp_raises s 0 0 _))) JEQ 0 0 Hf (or_introl eq_refl)).
  apply (before_step (loaded jeq_first) s LDI).
  - apply before_fresh.
  - by vm_compute.
  - discriminate.
  - by vm_compute.
Defined.

(** ** Memory addressing *)

Lemma getitem_out_of_range (l : list Z) i :
  i < - Z.of_nat (length l) ∨ Z.of_nat (length l) ≤ i →
  getitem l i = Raise IndexError.
Proof. intros H. unfold getitem. by rewrite subscript_out_of_range. Qed.

Lemma setitem_out_of_range (l : list Z) i v :
  i < - Z.of_nat (length l) ∨ Z.of_nat (length l) ≤ i →
  setitem l i v = Raise IndexError.
Proof. intros H. unfold setitem. by rewrite subscript_out_of_range. Qed.

Lemma getitem_in_range (l : list Z) i :
  - Z.of_nat (length l) ≤ i < Z.of_nat (length l) →
  ∃ v, getitem l i = Ok v.
Proof.
  intros H. destruct (decide (0 ≤ i)).
  - destruct (getitem_lookup l i (Z.to_nat i)) as (v & _ & Hv).
    + apply subscript_nonneg. lia.
    + by exists v.
  - destruct (getitem_lookup l i (Z.to_nat (Z.of_nat (length l) + i)))
      as (v & _ & Hv).
    + apply subscript_negative. lia.
    + by exists v.
Qed.

Lemma setitem_nonneg (l : list Z) i v :
  0 ≤ i < Z.of_nat (length l) →
  setitem l i v = Ok (<[Z.to_nat i := v]> l).
Proof. intros H. unfold setitem. by rewrite subscript_nonneg. Qed.

Lemma getitem_nonneg (l : list Z) i v :
  0 ≤ i < Z.of_nat (length l) →
  l !! Z.to_nat i = Some v → getitem l i = Ok v.
Proof. intros H Hv. unfold getitem. by rewrite subscript_nonneg, Hv. Qed.

Lemma getitem_raises (l : list Z) i e :
  getitem l i = Raise e → e = IndexError.
Proof.
  unfold getitem. destruct (subscript _ i) as [n|]; [|congruence].
  destruct (l !! n); congruence.
Qed.




Definition push_42 : list Z := [LDI; 0; 42; PUSH; 0; HLT].




(** ** Operand pre-fetch at the top of memory *)

(** C9.  With the program counter at 254 or 255 the pre-fetch of the two
    candidate operands subscripts the memory list at 256 (or 257): the
    iteration raises [IndexError] before any dispatch, whatever instruction
    is stored there, in both classes. *)
Theorem operand_prefetch_raises_at_top s :
  length (ram s) = 256%nat →
  254 ≤ pc s ≤ 255 →
  CpuAdditions.step s = (Raise IndexError, s) ∧
  Cpu.step s = (Raise IndexError, s).
Proof.
  intros Hlen Hpc. unfold CpuAdditions.step, Cpu.step. run_monad.
  destruct (getitem_in_range (ram s) (pc s)) as [ir ->]; [rewrite Hlen; lia|].
  destruct (decide (pc s = 254)) as [E|E].
  - destruct (getitem_in_range (ram s) (pc s + 1)) as [a ->];
      [rewrite Hlen; lia|].
    by rewrite (getitem_out_of_range (ram s) (pc s + 2)) by (rewrite Hlen; lia).
  - by rewrite (getitem_out_of_range (ram s) (pc s + 1)) by (rewrite Hlen; lia).
Qed.

(** LDI R0,254; JMP R0; ...; HLT stored at address 254. *)
Definition hlt_at_254 : list Z :=
  [LDI; 0; 254; JMP; 0] ++ replicate 249 0 ++ [HLT].

Lemma operand_prefetch_raises_at_top_witness :
  let s := snd (CpuAdditions.run 2 (loaded hlt_at_254)) in
  running s = true ∧ pc s = 254 ∧ getitem (ram s) (pc s) = Ok HLT ∧
  CpuAdditions.step s = (Raise IndexError, s).
Proof.
  intros s. do 3 (split; [by vm_compute|]).
  refine (proj1 (operand_prefetch_raises_at_top s _ _)).
  - by vm_compute.
  - by vm_compute.
Defined.

(** ** Register values and register indices in the extended class *)

Definition add_255_255 : list Z := [LDI; 0; 255; LDI; 1; 255; ADD; 0; 1; HLT].
Definition sub_0_1 : list Z := [LDI; 1; 1; SUB; 0; 1; HLT].
Definition mul_255_255 : list Z := [LDI; 0; 255; LDI; 1; 255; MUL; 0; 1; HLT].
Definition push_first : list Z := [PUSH; 0; HLT].
Definition call_first : list Z := [LDI; 0; 5; CALL; 0; HLT].

(** C2.  ADD, SUB and MUL store the integer result as it is and PUSH and
    CALL decrement register 7 in place: the programs below halt normally
    with 510, -1 and 65025 in register 0 and with -1 in register 7. *)
Theorem register_values_leave_byte_range :
  (let out := CpuAdditions.run 4 (loaded add_255_255) in
   fst out = Some (Ok tt) ∧ getitem (reg (snd out)) 0 = Ok 510) ∧
  (let out := CpuAdditions.run 3 (loaded sub_0_1) in
   fst out = Some (Ok tt) ∧ getitem (reg (snd out)) 0 = Ok (-1)) ∧
  (let out := CpuAdditions.run 4 (loaded mul_255_255) in
   fst out = Some (Ok tt) ∧ getitem (reg (snd out)) 0 = Ok 65025) ∧
  (let out := CpuAdditions.run 2 (loaded push_first) in
   fst out = Some (Ok tt) ∧ getitem (reg (snd out)) 7 = Ok (-1)) ∧
  (let out := CpuAdditions.run 3 (loaded call_first) in
   fst out = Some (Ok tt) ∧ getitem (reg (snd out)) 7 = Ok (-1)).
Proof. repeat split; by vm_compute. Qed.

(** C3.  PRN, JMP, PUSH and POP subscript the register list with the
    operand byte as fetched: on an 8-slot register file an operand of 8 or
    more raises [IndexError], it is not folded onto a register. *)
Theorem unmasked_register_index_raises operand_a operand_b s :
  wf s →
  8 ≤ operand_a →
  CpuAdditions.print_ operand_a operand_b s = (Raise IndexError, s) ∧
  CpuAdditions.jump operand_a operand_b s = (Raise IndexError, s) ∧
  fst (CpuAdditions.push operand_a operand_b s) = Raise IndexError ∧
  fst (CpuAdditions.pop operand_a operand_b s) = Raise IndexError.
Proof.
  intros (Hram & Hreg & Hsp) Ha.
  assert (Hget : getitem (reg s) operand_a = Raise IndexError).
  { apply getitem_out_of_range. rewrite Hreg. lia. }
  assert (Hset : ∀ v, setitem (reg s) operand_a v = Raise IndexError).
  { intros v. apply setitem_out_of_range. rewrite Hreg. lia. }
  destruct (getitem_in_range (reg s) 7) as [top Htop]; [rewrite Hreg; lia|].
  repeat split.
  - unfold CpuAdditions.print_. run_monad. by rewrite Hget.
  - unfold CpuAdditions.jump. run_monad. by rewrite Hget.
  - unfold CpuAdditions.push, CpuAdditions.sp_add. run_monad.
    rewrite Hsp, Htop.
    rewrite setitem_nonneg by (rewrite Hreg; lia).
    cbn [reg set_reg fst].
    rewrite getitem_out_of_range; [done|].
    rewrite length_insert, Hreg. lia.
  - unfold CpuAdditions.pop. run_monad. rewrite Hsp, Htop.
    destruct (getitem (ram s) top) as [v|e] eqn:E.
    + by rewrite Hset.
    + by apply getitem_raises in E as ->.
Qed.

Definition prn_8 : list Z := [LDI; 0; 7; PRN; 8; HLT].

Lemma unmasked_register_index_raises_witness :
  let s := snd (CpuAdditions.run 1 (loaded prn_8)) in
  fetches PRN 8 HLT s ∧
  CpuAdditions.print_ 8 HLT s = (Raise IndexError, s) ∧
  CpuAdditions.run 1 s = (Some (Raise IndexError), s).
Proof.
  intros s. split; [by vm_compute|].
  split; [|by vm_compute].
  refine (proj1 (unmasked_register_index_raises 8 HLT s _ _)).
  - by vm_compute.
  - lia.
Defined.

(** ** Stack and control-flow handlers of the extended class *)

Lemma getitem_insert (l : list Z) i j v :
  0 ≤ i < Z.of_nat (length l) → 0 ≤ j < Z.of_nat (length l) →
  getitem (<[Z.to_nat i := v]> l) j =
  if decide (i = j) then Ok v else getitem l j.
Proof.
  intros Hi Hj. unfold getitem. rewrite length_insert.
  rewrite subscript_nonneg by done.
  destruct (decide (i = j)) as [->|Hne].
  - rewrite list_lookup_insert_eq by lia. done.
  - rewrite list_lookup_insert_ne by lia. done.
Qed.

Lemma setitem_in_range (l : list Z) i v :
  - Z.of_nat (length l) ≤ i < Z.of_nat (length l) →
  ∃ l', setitem l i v = Ok l'.
Proof.
  intros H. unfold setitem. destruct (decide (0 ≤ i)).
  - rewrite subscript_nonneg by lia. eauto.
  - rewrite subscript_negative by lia. eauto.
Qed.

(** Reduction of the state-passing plumbing once a primitive's result is
    known. *)
Ltac mred :=
  cbv beta iota;
  cbn [fst snd ram reg pc sp running flag console
       set_ram set_reg set_pc set_running set_flag emit].

Section StackHandlers.

Import CpuAdditions.

Variable s : CPU.
Hypothesis Hwf : wf s.
Variable top : Z.
Hypothesis Htop : getitem (reg s) 7 = Ok top.

Lemma sp_add_spec n :
  sp_add n s = (Ok tt, set_reg (<[7%nat := top + n]> (reg s)) s).
Proof using Hwf Htop.
  destruct Hwf as (_ & Hreg & Hsp).
  unfold sp_add. run_monad. rewrite Hsp, Htop. mred.
  rewrite setitem_nonneg by (rewrite Hreg; lia). done.
Qed.

Lemma push_spec a b v :
  0 ≤ a ≤ 7 → getitem (reg s) a = Ok v → -255 ≤ top ≤ 256 →
  ∃ ram',
    setitem (ram s) (top - 1) (if decide (a = 7) then top - 1 else v)
      = Ok ram' ∧
    push a b s =
      (Ok tt, set_pc (pc s + 2)
                (set_ram ram' (set_reg (<[7%nat := top - 1]> (reg s)) s))).
Proof using Hwf Htop.
  intros Ha Hv Hrange. pose proof Hwf as (Hram & Hreg & Hsp).
  destruct (setitem_in_range (ram s) (top - 1)
              (if decide (a = 7) then top - 1 else v)) as [ram' Hset];
    [rewrite Hram; lia|].
  exists ram'. split; [done|].
  unfold push, bind at 1. rewrite sp_add_spec. run_monad.
  change (<[7%nat := top + -1]> (reg s))
    with (<[Z.to_nat 7 := top - 1]> (reg s)).
  rewrite Hsp. rewrite !getitem_insert by (rewrite Hreg; lia).
  rewrite (decide_True (P := 7 = 7)) by done.
  destruct (decide (7 = a)) as [<-|Hne].
  - rewrite decide_True in Hset by done. mred. by rewrite Hset.
  - rewrite decide_False in Hset by done. rewrite Hv. mred.
    by rewrite Hset.
Qed.

Lemma pop_spec a b v :
  0 ≤ a ≤ 7 → getitem (ram s) top = Ok v →
  pop a b s =
    (Ok tt, set_pc (pc s + 2)
              (set_reg (<[7%nat := (if decide (a = 7) then v else top) + 1]>
                          (<[Z.to_nat a := v]> (reg s))) s)).
Proof using Hwf Htop.
  intros Ha Hv. pose proof Hwf as (Hram & Hreg & Hsp).
  unfold pop. run_monad. rewrite Hsp, Htop. mred. rewrite Hv. mred.
  rewrite setitem_nonneg by (rewrite Hreg; lia). mred.
  unfold sp_add. run_monad. rewrite Hsp.
  rewrite getitem_insert by (rewrite Hreg; lia).
  destruct (decide (a = 7)) as [->|Hne].
  - mred. rewrite setitem_nonneg by (rewrite length_insert, Hreg; lia).
    done.
  - rewrite Htop. mred.
    rewrite setitem_nonneg by (rewrite length_insert, Hreg; lia).
    done.
Qed.

Lemma call_spec a b v :
  0 ≤ a ≤ 7 → getitem (reg s) a = Ok v → -255 ≤ top ≤ 256 →
  ∃ ram',
    setitem (ram s) (top - 1) (pc s + 2) = Ok ram' ∧
    call a b s =
      (Ok tt, set_pc (if decide (a = 7) then top - 1 else v)
                (set_ram ram' (set_reg (<[7%nat := top - 1]> (reg s)) s))).
Proof using Hwf Htop.
  intros Ha Hv Hrange. pose proof Hwf as (Hram & Hreg & Hsp).
  destruct (setitem_in_range (ram s) (top - 1) (pc s + 2)) as [ram' Hset];
    [rewrite Hram; lia|].
  exists ram'. split; [done|].
  unfold call, bind at 1. rewrite sp_add_spec. run_monad.
  change (<[7%nat := top + -1]> (reg s))
    with (<[Z.to_nat 7 := top - 1]> (reg s)).
  rewrite Hsp. rewrite getitem_insert by (rewrite Hreg; lia).
  rewrite decide_True by done. mred. rewrite Hset. mred.
  rewrite getitem_insert by (rewrite Hreg; lia).
  destruct (decide (7 = a)) as [<-|Hne].
  - by rewrite decide_True by done.
  - rewrite decide_False by done. by rewrite Hv.
Qed.

Lemma return_spec a b v :
  getitem (ram s) top = Ok v →
  _return a b s =
    (Ok tt, set_reg (<[7%nat := top + 1]> (reg s)) (set_pc v s)).
Proof using Hwf Htop.
  intros Hv. pose proof Hwf as (Hram & Hreg & Hsp).
  unfold _return. run_monad. rewrite Hsp, Htop. mred. rewrite Hv. mred.
  unfold sp_add. run_monad. rewrite Hsp, Htop. mred.
  rewrite setitem_nonneg by (rewrite Hreg; lia). done.
Qed.

End StackHandlers.

Lemma getitem_insert_nat (l : list Z) (n : nat) j v :
  (n < length l)%nat → 0 ≤ j < Z.of_nat (length l) →
  getitem (<[n := v]> l) j =
  if decide (Z.of_nat n = j) then Ok v else getitem l j.
Proof.
  intros Hn Hj. rewrite <- (Nat2Z.id n) at 1.
  apply getitem_insert; lia.
Qed.

(** ** PUSH then POP *)

(** PUSH [r] followed by POP [r'] returns, with register 7 holding what it
    held before the PUSH and register [r'] holding what [r] held then. *)
Definition push_pop_restores (r r' b b' : Z) (s : CPU) : Prop :=
  ∃ top v s',
    getitem (reg s) 7 = Ok top ∧ getitem (reg s) r = Ok v ∧
    (CpuAdditions.push r b ;;; CpuAdditions.pop r' b') s = (Ok tt, s') ∧
    getitem (reg s') 7 = Ok top ∧ getitem (reg s') r' = Ok v.

(** On a fresh CPU, PUSH R7 stores the already decremented stack pointer:
    POP R0 then yields -1 where register 7 held 0. *)
Lemma push_sp_pop_other_register :
  ¬ push_pop_restores 7 0 0 0 CPU_init.
Proof.
  intros (top & v & s' & Htop & Hv & Hrun & _ & Hr').
  vm_compute in Hv. vm_compute in Hrun.
  injection Hv as <-. injection Hrun as <-.
  vm_compute in Hr'. discriminate.
Qed.

(** C4 (as the code has it).  For register indices [r] and [r'] that are
    both 7 or both different from 7, and a stack pointer from which one
    decrement still subscripts the memory list, PUSH [r] followed by POP
    [r'] returns, leaves register 7 as it was before the PUSH and leaves in
    register [r'] the value register [r] held before the PUSH. *)
Theorem push_pop_restores_registers r r' b b' s top :
  wf s →
  0 ≤ r ≤ 7 → 0 ≤ r' ≤ 7 → (r = 7 ↔ r' = 7) →
  getitem (reg s) 7 = Ok top → -255 ≤ top ≤ 256 →
  push_pop_restores r r' b b' s.
Proof.
  intros Hwf Hr Hr' Hiff Htop Hrange.
  pose proof Hwf as (Hram & Hreg & Hsp).
  destruct (getitem_in_range (reg s) r) as [v Hv]; [rewrite Hreg; lia|].
  destruct (push_spec s Hwf top Htop r b v Hr Hv Hrange)
    as (ram' & Hset & Hpush).
  set (value := if decide (r = 7) then top - 1 else v) in *.
  set (s1 := set_pc (pc s + 2)
               (set_ram ram' (set_reg (<[7%nat := top - 1]> (reg s)) s)))
    in *.
  assert (Hwf1 : wf s1).
  { unfold wf, s1. mred. apply setitem_length in Hset.
    by rewrite Hset, length_insert. }
  assert (Htop1 : getitem (reg s1) 7 = Ok (top - 1)).
  { unfold s1. mred.
    rewrite getitem_insert_nat by (rewrite Hreg; lia). done. }
  assert (Hslot : getitem (ram s1) (top - 1) = Ok value).
  { unfold s1. mred. by apply getitem_setitem in Hset as [? _]. }
  exists top, v. eexists. split; [done|]. split; [done|].
  split.
  { unfold bind. rewrite Hpush.
    apply (pop_spec s1 Hwf1 (top - 1) Htop1 r' b' value Hr' Hslot). }
  unfold s1. mred.
  rewrite !getitem_insert_nat
    by (rewrite ?length_insert, Hreg; lia).
  split.
  - rewrite decide_True by done. f_equal. unfold value.
    destruct (decide (r' = 7)) as [E|E]; [|lia].
    rewrite decide_True by tauto. lia.
  - destruct (decide (Z.of_nat 7 = r')) as [<-|Hne].
    + rewrite decide_True by done. unfold value.
      rewrite decide_True by tauto.
      assert (r = 7) as -> by tauto. rewrite Htop in Hv.
      injection Hv as <-. f_equal. lia.
    + rewrite decide_True by lia. unfold value.
      rewrite decide_False; [done|]. intros E. apply Hne.
      apply Hiff in E. by rewrite E.
Qed.

Lemma push_pop_restores_registers_witness :
  let s := snd (CpuAdditions.run 1 (loaded push_42)) in
  getitem (reg s) 0 = Ok 42 ∧ push_pop_restores 0 3 0 0 s.
Proof.
  intros s. split; [by vm_compute|].
  apply (push_pop_restores_registers 0 3 0 0 s 0).
  - by vm_compute.
  - lia.
  - lia.
  - split; intros H; discriminate H.
  - by vm_compute.
  - lia.
Defined.

(** ** CALL and RET *)

(** CALL [r] returns, with [pc + 2] stored in the memory cell under the
    decremented register 7 and the program counter at the value register
    [r] held before the CALL; a RET executed from a later state with that
    register 7 and that cell returns to [pc + 2] and puts register 7 back
    to its value before the CALL. *)
Definition call_then_ret (r b : Z) (s : CPU) : Prop :=
  ∃ top target s1,
    getitem (reg s) 7 = Ok top ∧
    getitem (reg s) r = Ok target ∧
    CpuAdditions.call r b s = (Ok tt, s1) ∧
    getitem (reg s1) 7 = Ok (top - 1) ∧
    getitem (ram s1) (top - 1) = Ok (pc s + 2) ∧
    pc s1 = target ∧
    ∀ s2 x y,
      wf s2 →
      getitem (reg s2) 7 = Ok (top - 1) →
      getitem (ram s2) (top - 1) = Ok (pc s + 2) →
      ∃ s3,
        CpuAdditions._return x y s2 = (Ok tt, s3) ∧
        pc s3 = pc s + 2 ∧
        getitem (reg s3) 7 = Ok top.

(** LDI R7,255; ADD R7,R7; LDI R0,12; CALL R0: the stack pointer is 510
    when the CALL is fetched. *)
Definition sp_510 : list Z :=
  [LDI; 7; 255; ADD; 7; 7; LDI; 0; 12; CALL; 0; HLT].

(** On a fresh CPU, CALL R7 jumps to the decremented stack pointer, -1,
    where register 7 held 0; with the stack pointer at 510 CALL R0 raises
    on storing the return address; CALL with operand 8 raises on reading
    the target. *)
Lemma call_misses_target_or_stack :
  ¬ call_then_ret 7 0 CPU_init ∧
  (let s := snd (CpuAdditions.run 3 (loaded sp_510)) in
   fetches CALL 0 HLT s ∧ getitem (reg s) 7 = Ok 510 ∧
   fst (CpuAdditions.call 0 HLT s) = Raise IndexError ∧
   ¬ call_then_ret 0 HLT s) ∧
  ¬ call_then_ret 8 0 CPU_init.
Proof.
  split; [|split].
  - intros (top & target & s1 & _ & Htarget & Hcall & _ & _ & Hpc & _).
    vm_compute in Htarget. vm_compute in Hcall.
    injection Htarget as <-. injection Hcall as <-.
    vm_compute in Hpc. discriminate.
  - intros s. do 3 (split; [by vm_compute|]).
    intros (top & target & s1 & _ & _ & Hcall & _).
    vm_compute in Hcall. discriminate.
  - intros (top & target & s1 & _ & Htarget & _).
    vm_compute in Htarget. discriminate.
Qed.

(** C5 (as the code has it).  For a register index [r] in [0,7] and a stack
    pointer from which one decrement still subscripts the memory list,
    CALL [r] returns with register 7 decremented, the address [pc + 2]
    stored in the memory cell register 7 now designates, and the program
    counter equal to register [r] as read after the decrement: the value
    [r] held before the CALL when [r] is not 7, the decremented stack
    pointer when it is.  From any later state whose register 7 and that
    memory cell are as the CALL left them, RET returns with the program
    counter at [pc + 2] and register 7 back at its value before the CALL. *)
Theorem call_return_roundtrip r b s top :
  wf s →
  0 ≤ r ≤ 7 →
  getitem (reg s) 7 = Ok top → -255 ≤ top ≤ 256 →
  ∃ s1,
    CpuAdditions.call r b s = (Ok tt, s1) ∧
    wf s1 ∧
    getitem (reg s1) 7 = Ok (top - 1) ∧
    getitem (ram s1) (top - 1) = Ok (pc s + 2) ∧
    getitem (reg s1) r = Ok (pc s1) ∧
    (r ≠ 7 → getitem (reg s) r = Ok (pc s1)) ∧
    (r = 7 → pc s1 = top - 1) ∧
    ∀ s2 x y,
      wf s2 →
      getitem (reg s2) 7 = Ok (top - 1) →
      getitem (ram s2) (top - 1) = Ok (pc s + 2) →
      ∃ s3,
        CpuAdditions._return x y s2 = (Ok tt, s3) ∧
        pc s3 = pc s + 2 ∧
        getitem (reg s3) 7 = Ok top.
Proof.
  intros Hwf Hr Htop Hrange. pose proof Hwf as (Hram & Hreg & Hsp).
  destruct (getitem_in_range (reg s) r) as [v Hv]; [rewrite Hreg; lia|].
  destruct (call_spec s Hwf top Htop r b v Hr Hv Hrange)
    as (ram' & Hset & Hcall).
  eexists. split; [exact Hcall|]. mred.
  split.
  { unfold wf. mred. apply setitem_length in Hset.
    by rewrite Hset, length_insert. }
  rewrite !getitem_insert_nat by (rewrite Hreg; lia).
  split; [done|].
  split; [by apply getitem_setitem in Hset as [? _]|].
  split.
  { destruct (decide (r = 7)) as [->|Hne]; [done|].
    rewrite decide_False by (simpl; lia). done. }
  split.
  { intros Hne. by rewrite decide_False by done. }
  split.
  { intros ->. by rewrite decide_True by done. }
  intros s2 x y Hwf2 Htop2 Hslot2. eexists.
  split; [exact (return_spec s2 Hwf2 (top - 1) Htop2 x y (pc s + 2) Hslot2)|].
  mred. split; [done|].
  destruct Hwf2 as (_ & Hreg2 & _).
  rewrite getitem_insert_nat by (rewrite Hreg2; lia).
  rewrite decide_True by done. f_equal. lia.
Qed.

Lemma call_return_roundtrip_witness :
  let s := snd (CpuAdditions.run 1 (loaded call_first)) in
  pc s = 3 ∧
  ∃ s1,
    CpuAdditions.call 0 0 s = (Ok tt, s1) ∧
    wf s1 ∧
    getitem (reg s1) 7 = Ok (0 - 1) ∧
    getitem (ram s1) (0 - 1) = Ok (pc s + 2) ∧
    getitem (reg s1) 0 = Ok (pc s1) ∧
    (0 ≠ 7 → getitem (reg s) 0 = Ok (pc s1)) ∧
    (0 = 7 → pc s1 = 0 - 1) ∧
    ∀ s2 x y,
      wf s2 →
      getitem (reg s2) 7 = Ok (0 - 1) →
      getitem (ram s2) (0 - 1) = Ok (pc s + 2) →
      ∃ s3,
        CpuAdditions._return x y s2 = (Ok tt, s3) ∧
        pc s3 = pc s + 2 ∧
        getitem (reg s3) 7 = Ok 0.
Proof.
  intros s. split; [by vm_compute|].
  apply (call_return_roundtrip 0 0 s 0).
  - by vm_compute.
  - lia.
  - by vm_compute.
  - lia.
Defined.

(** ** CMP, JEQ and JNE *)

(** [t'] is [t] with the program counter at [p]. *)
Definition jumps_to (t t' : CPU) (p : Z) : Prop :=
  pc t' = p ∧ reg t' = reg t ∧ ram t' = ram t ∧ sp t' = sp t ∧
  flag t' = flag t ∧ running t' = running t ∧ console t' = console t.

Lemma jumps_to_set_pc t p : jumps_to t (set_pc p t) p.
Proof. by repeat split. Qed.

(** C6.  CMP returns for every pair of operand bytes on a well-formed CPU:
    it reads the registers numbered by the operands modulo 8 and leaves
    the flag assigned to 1 (the constant the class compares against for
    "equal") exactly when they are equal, to 4 exactly when the first is
    smaller and to 2 exactly when it is greater, with the program counter
    3 further and registers and memory as they were.  With the flag
    assigned, JEQ whose flag is not 1 and JNE whose flag is 1 move the
    program counter on by 2 whatever the operand; the jump that is taken
    subscripts the register list with the operand byte as fetched: for an
    operand in [-8,7] the program counter becomes that register, for any
    other operand (8 or more among them) the handler raises [IndexError]
    and the CPU is unchanged. *)
Theorem compare_sets_flag_for_jumps a b s c d t f' :
  wf s →
  wf t → flag t = Some f' →
  (∃ x y s' f,
     getitem (reg s) (a mod 8) = Ok x ∧
     getitem (reg s) (b mod 8) = Ok y ∧
     CpuAdditions.compare a b s = (Ok tt, s') ∧
     flag s' = Some f ∧
     (f = HLT ↔ x = y) ∧ (f = 4 ↔ x < y) ∧ (f = 2 ↔ x > y) ∧
     pc s' = pc s + 3 ∧ reg s' = reg s ∧ ram s' = ram s) ∧
  (f' ≠ HLT →
     ∃ t', CpuAdditions.jump_if_equal c d t = (Ok tt, t') ∧
           jumps_to t t' (pc t + 2)) ∧
  (f' = HLT →
     ∃ t', CpuAdditions.jump_if_not_equal c d t = (Ok tt, t') ∧
           jumps_to t t' (pc t + 2)) ∧
  (-8 ≤ c ≤ 7 →
     ∃ target,
       getitem (reg t) c = Ok target ∧
       (f' = HLT →
          ∃ t', CpuAdditions.jump_if_equal c d t = (Ok tt, t') ∧
                jumps_to t t' target) ∧
       (f' ≠ HLT →
          ∃ t', CpuAdditions.jump_if_not_equal c d t = (Ok tt, t') ∧
                jumps_to t t' target)) ∧
  (c < -8 ∨ 8 ≤ c →
     (f' = HLT →
        CpuAdditions.jump_if_equal c d t = (Raise IndexError, t)) ∧
     (f' ≠ HLT →
        CpuAdditions.jump_if_not_equal c d t = (Raise IndexError, t))).
Proof.
  intros Hwf Hwft Hf.
  split; [|split; [|split; [|split]]].
  - pose proof Hwf as (_ & Hreg & _).
    pose proof (Z.mod_pos_bound a 8). pose proof (Z.mod_pos_bound b 8).
    destruct (getitem_in_range (reg s) (a mod 8)) as [x Hx];
      [rewrite Hreg; lia|].
    destruct (getitem_in_range (reg s) (b mod 8)) as [y Hy];
      [rewrite Hreg; lia|].
    set (f := if decide (x = y) then HLT
              else if decide (x < y) then 4 else 2).
    exists x, y, (set_pc (pc s + 3) (set_flag f s)), f.
    split; [done|]. split; [done|].
    split.
    { unfold CpuAdditions.compare, CpuAdditions.alu.
      rewrite !land_OOI_mod.
      change (py_eq (PyStr "CMP") (PyStr "ADD")) with false.
      change (py_eq (PyStr "CMP") (PyStr "SUB")) with false.
      change (py_eq (PyStr "CMP") (PyStr "MUL")) with false.
      change (py_eq (PyStr "CMP") (PyStr "INC")) with false.
      change (py_eq (PyStr "CMP") (PyStr "DEC")) with false.
      change (py_eq (PyStr "CMP") (PyStr "CMP")) with true.
      run_monad. rewrite Hx, Hy. mred. unfold f.
      destruct (Z.eqb_spec x y) as [E|E].
      + by rewrite decide_True by done.
      + rewrite decide_False by done. rewrite Hx, Hy. mred.
        destruct (Z.ltb_spec x y) as [L|L].
        * by rewrite decide_True by done.
        * rewrite decide_False by lia. rewrite Hx, Hy. mred.
          destruct (Z.gtb_spec x y) as [G|G]; [done|lia]. }
    split; [done|].
    unfold f. repeat split; try done;
      repeat case_decide; intros; (done || lia).
  - intros Hne. exists (set_pc (pc t + 2) t).
    split; [|apply jumps_to_set_pc].
    unfold CpuAdditions.jump_if_equal, CpuAdditions.flag_load.
    run_monad. rewrite Hf. mred.
    by destruct (Z.eqb_spec f' HLT).
  - intros ->. exists (set_pc (pc t + 2) t).
    split; [|apply jumps_to_set_pc].
    unfold CpuAdditions.jump_if_not_equal, CpuAdditions.flag_load.
    run_monad. by rewrite Hf.
  - intros Hc. destruct Hwft as (_ & Hreg & _).
    destruct (getitem_in_range (reg t) c) as [target Htarget];
      [rewrite Hreg; lia|].
    exists target. split; [done|]. split.
    + intros ->. exists (set_pc target t).
      split; [|apply jumps_to_set_pc].
      unfold CpuAdditions.jump_if_equal, CpuAdditions.flag_load.
      run_monad. rewrite Hf. mred. by rewrite Z.eqb_refl, Htarget.
    + intros Hne. exists (set_pc target t).
      split; [|apply jumps_to_set_pc].
      unfold CpuAdditions.jump_if_not_equal, CpuAdditions.flag_load.
      run_monad. rewrite Hf. mred.
      destruct (Z.eqb_spec f' HLT); [done|]. cbn [negb].
      by rewrite Htarget.
  - intros Hc. destruct Hwft as (_ & Hreg & _).
    assert (Hout : getitem (reg t) c = Raise IndexError).
    { apply getitem_out_of_range. rewrite Hreg. lia. }
    split.
    + intros ->.
      unfold CpuAdditions.jump_if_equal, CpuAdditions.flag_load.
      run_monad. rewrite Hf. mred. by rewrite Z.eqb_refl, Hout.
    + intros Hne.
      unfold CpuAdditions.jump_if_not_equal, CpuAdditions.flag_load.
      run_monad. rewrite Hf. mred.
      destruct (Z.eqb_spec f' HLT); [done|]. cbn [negb].
      by rewrite Hout.
Qed.

Definition cmp_3_5 : list Z := [LDI; 0; 3; LDI; 1; 5; CMP; 0; 1; JEQ; 0; HLT].

(** CMP R0,R0; JEQ 8: the compare sets "equal" and the jump is taken. *)
Definition jeq_8 : list Z := [CMP; 0; 0; JEQ; 8; HLT].

Lemma compare_sets_flag_for_jumps_witness :
  let s := loaded jeq_8 in
  let t := snd (CpuAdditions.step s) in
  fetches CMP 0 0 s ∧ fetches JEQ 8 HLT t ∧ flag t = Some HLT ∧
  CpuAdditions.jump_if_equal 8 HLT t = (Raise IndexError, t) ∧
  CpuAdditions.run 2 s = (Some (Raise IndexError), t).
Proof.
  intros s t. do 3 (split; [by vm_compute|]).
  split; [|by vm_compute].
  assert (Hwf : wf s) by (by vm_compute).
  assert (Hwft : wf t) by (by vm_compute).
  assert (Hf : flag t = Some HLT) by (by vm_compute).
  destruct (compare_sets_flag_for_jumps 0 0 s 8 HLT t HLT Hwf Hwft Hf)
    as (_ & _ & _ & _ & Hraise).
  apply Hraise; [right; lia | reflexivity].
Defined.

(** * Further properties of the two classes *)

(** ** The write loop of [load] *)

Lemma set_ram_set_ram r1 r2 s : set_ram r2 (set_ram r1 s) = set_ram r2 s.
Proof. reflexivity. Qed.

Lemma set_ram_same s : set_ram (ram s) s = s.
Proof. by destruct s. Qed.

Lemma load_from_fits (program : list Z) : ∀ (pre post : list Z) s,
  ram s = (pre ++ post)%list →
  (length program ≤ length post)%nat →
  load_from (Z.of_nat (length pre)) program s =
    (Ok tt, set_ram (pre ++ program ++ drop (length program) post)%list s).
Proof.
  induction program as [|byte rest IH]; intros pre post s Hram Hlen.
  - simpl. unfold ret. rewrite drop_0, <- Hram. by rewrite set_ram_same.
  - destruct post as [|p post']; [simpl in Hlen; lia|].
    cbn [load_from]. unfold bind at 1. unfold ram_store. run_monad.
    rewrite setitem_nonneg by (rewrite Hram, length_app; simpl; lia).
    mred. rewrite Nat2Z.id, Hram.
    rewrite insert_app_r_alt by lia. rewrite Nat.sub_diag. cbn [insert list_insert].
    replace (Z.of_nat (length pre) + 1)
      with (Z.of_nat (length (pre ++ [byte])%list))
      by (rewrite length_app; simpl; lia).
    rewrite (IH (pre ++ [byte])%list post').
    + rewrite set_ram_set_ram. f_equal. f_equal.
      by rewrite <- app_assoc.
    + cbn [ram set_ram]. by rewrite <- app_assoc.
    + simpl in Hlen. lia.
Qed.

Lemma load_from_app (p1 : list Z) : ∀ (p2 : list Z) address s,
  load_from address (p1 ++ p2)%list s =
  (load_from address p1 ;;; load_from (address + Z.of_nat (length p1)) p2) s.
Proof.
  induction p1 as [|byte rest IH]; intros p2 address s.
  - simpl. unfold bind, ret. by rewrite Z.add_0_r.
  - cbn [load_from app]. unfold bind.
    destruct (ram_store address byte s) as [[[]|e] s1]; [|done].
    rewrite IH. unfold bind.
    replace (address + 1 + Z.of_nat (length rest))
      with (address + Z.of_nat (length (byte :: rest)))
      by (cbn [length]; lia).
    done.
Qed.

(** X1.  Loading at most 256 parsed bytes into a fresh CPU returns and
    leaves them in memory from address 0 on, in order, followed by the
    zeros the memory was created with; nothing else of the CPU changes. *)
Theorem load_places_program (program : list Z) :
  (length program ≤ 256)%nat →
  load program CPU_init =
    (Ok tt,
     set_ram (program ++ replicate (256 - length program) 0)%list CPU_init).
Proof.
  intros Hlen. unfold load.
  pose proof (load_from_fits program [] (replicate 256 0) CPU_init eq_refl)
    as Hfit.
  change (Z.of_nat (length [])) with 0 in Hfit.
  rewrite Hfit by (by rewrite length_replicate).
  by rewrite drop_replicate.
Qed.

Lemma load_places_program_witness :
  load [LDI; 0; 8; HLT] CPU_init =
    (Ok tt,
     set_ram ([LDI; 0; 8; HLT] ++ replicate (256 - 4) 0)%list CPU_init).
Proof.
  apply (load_places_program [LDI; 0; 8; HLT]). simpl. lia.
Defined.

(** X2.  Loading more than 256 parsed bytes raises [IndexError] at the
    257th, with the first 256 already written over the whole memory. *)
Theorem load_overflows program :
  (256 < length program)%nat →
  load program CPU_init =
    (Raise IndexError, set_ram (take 256 program) CPU_init).
Proof.
  intros Hlen. unfold load.
  rewrite <- (take_drop 256 program) at 1.
  rewrite load_from_app. unfold bind.
  assert (Htake : length (take 256 program) = 256%nat)
    by (rewrite length_take; lia).
  pose proof (load_from_fits (take 256 program) [] (replicate 256 0)
                CPU_init eq_refl) as Hfit.
  change (Z.of_nat (length [])) with 0 in Hfit.
  rewrite Hfit by (by rewrite length_replicate, Htake).
  rewrite Htake, drop_replicate. cbn [app replicate Nat.sub].
  rewrite app_nil_r.
  destruct (drop 256 program) as [|byte rest] eqn:Hdrop.
  { apply (f_equal length) in Hdrop. rewrite length_drop in Hdrop.
    simpl in Hdrop. lia. }
  cbn [load_from]. unfold bind, ram_store. run_monad.
  rewrite setitem_out_of_range; [done|].
  rewrite Htake. lia.
Qed.

Lemma load_overflows_witness :
  load (replicate 257 HLT) CPU_init =
    (Raise IndexError, set_ram (take 256 (replicate 257 HLT)) CPU_init).
Proof.
  apply (load_overflows (replicate 257 HLT)).
  rewrite length_replicate. lia.
Defined.

(** ** Memory cells *)

Lemma subscript_mod len i :
  0 < len → - len ≤ i < len →
  subscript len i = Some (Z.to_nat (i mod len)).
Proof.
  intros Hlen Hi. destruct (decide (0 ≤ i)).
  - rewrite subscript_nonneg by lia. by rewrite Z.mod_small by lia.
  - rewrite subscript_negative by lia. f_equal. f_equal.
    rewrite <- (Z.mod_small (len + i) len) by lia.
    rewrite Z.add_comm. replace (i + len) with (i + 1 * len) by lia.
    by rewrite Z.mod_add by lia.
Qed.

(** X3.  A write to an address a 256-slot memory accepts returns, a read
    of that address then yields the written value, and a read of any
    address designating another cell (one that differs modulo 256) yields
    what it yielded before the write; registers, program counter, flag and
    output are untouched. *)
Theorem ram_write_then_read s address value :
  length (ram s) = 256%nat →
  -256 ≤ address ≤ 255 →
  ∃ cells,
    ram_write value address s = (Ok tt, set_ram cells s) ∧
    length cells = 256%nat ∧
    ram_read address (set_ram cells s) = (Ok value, set_ram cells s) ∧
    ∀ other, -256 ≤ other ≤ 255 →
      other mod 256 ≠ address mod 256 →
      fst (ram_read other (set_ram cells s)) = fst (ram_read other s).
Proof.
  intros Hlen Ha.
  destruct (setitem_in_range (ram s) address value) as [cells Hset];
    [rewrite Hlen; lia|].
  exists cells. run_monad. rewrite Hset. mred.
  destruct (getitem_setitem _ _ _ _ Hset) as [Hget Hlen'].
  rewrite Hget. repeat split; [congruence|].
  intros other Ho Hne.
  apply (getitem_setitem_ne (ram s) cells address other value
           (Z.to_nat (address mod 256)) (Z.to_nat (other mod 256))).
  - rewrite Hlen. apply subscript_mod; lia.
  - rewrite Hlen. apply subscript_mod; lia.
  - pose proof (Z.mod_pos_bound address 256).
    pose proof (Z.mod_pos_bound other 256). lia.
  - done.
Qed.

Lemma ram_write_then_read_witness :
  ∃ cells,
    ram_write 42 (-1) CPU_init = (Ok tt, set_ram cells CPU_init) ∧
    length cells = 256%nat ∧
    ram_read (-1) (set_ram cells CPU_init) = (Ok 42, set_ram cells CPU_init) ∧
    ∀ other, -256 ≤ other ≤ 255 →
      other mod 256 ≠ (-1) mod 256 →
      fst (ram_read other (set_ram cells CPU_init)) =
      fst (ram_read other CPU_init).
Proof.
  apply (ram_write_then_read CPU_init (-1) 42); [reflexivity | lia].
Defined.

(** ** Invariants of the run loops *)

Lemma loop_preserves (P : CPU → Prop) step :
  preserves P step → ∀ fuel s, P s → P (snd (loop step fuel s)).
Proof.
  intros Hstep fuel. induction fuel as [|n IH]; intros s Hs;
    rewrite loop_unfold; destruct (running s); try done.
  specialize (Hstep s Hs). destruct (step s) as [[[]|e] s']; simpl in *.
  - by apply IH.
  - done.
Qed.

Lemma wf_minimal_alu op a b : preserves wf (Cpu.alu op a b).
Proof. unfold Cpu.alu. preserves_method. Qed.

Lemma wf_minimal_step : preserves wf Cpu.step.
Proof.
  pose proof wf_minimal_alu.
  unfold Cpu.step, Cpu.push, Cpu.pop, Cpu.ldi. preserves_method.
Qed.

(** X4.  Neither run loop ever resizes the memory or the register list or
    reassigns [sp]: from a CPU with 256 cells, 8 registers and [sp] = 7,
    the CPU still has them after any number of iterations, whether the
    loop halted, raised or is still running. *)
Theorem run_keeps_shape fuel s :
  wf s →
  wf (snd (CpuAdditions.run fuel s)) ∧ wf (snd (Cpu.run fuel s)).
Proof.
  intros Hs. split.
  - by apply (loop_preserves wf CpuAdditions.step wf_step).
  - by apply (loop_preserves wf Cpu.step wf_minimal_step).
Qed.

Lemma run_keeps_shape_witness :
  wf (snd (CpuAdditions.run 5 (loaded push_42))) ∧
  wf (snd (Cpu.run 5 (loaded push_42))).
Proof.
  apply (run_keeps_shape 5 (loaded push_42)). by vm_compute.
Defined.

(** ** The fetch window *)

(** X5.  The three reads that open an iteration succeed exactly for a
    program counter in [-256, 253] (negative values count from the end of
    memory); for any other program counter the iteration raises
    [IndexError] before dispatch and changes nothing, in both classes. *)
Theorem fetch_window s :
  length (ram s) = 256%nat →
  (-256 ≤ pc s ≤ 253 → ∃ ir a b, fetches ir a b s) ∧
  (pc s < -256 ∨ 253 < pc s →
     (∀ ir a b, ¬ fetches ir a b s) ∧
     CpuAdditions.step s = (Raise IndexError, s) ∧
     Cpu.step s = (Raise IndexError, s)).
Proof.
  intros Hlen. split.
  - intros Hpc.
    destruct (getitem_in_range (ram s) (pc s)) as [ir Hir];
      [rewrite Hlen; lia|].
    destruct (getitem_in_range (ram s) (pc s + 1)) as [a Ha];
      [rewrite Hlen; lia|].
    destruct (getitem_in_range (ram s) (pc s + 2)) as [b Hb];
      [rewrite Hlen; lia|].
    by exists ir, a, b.
  - intros Hpc.
    assert (Hcases :
      getitem (ram s) (pc s) = Raise IndexError ∨
      (∃ ir, getitem (ram s) (pc s) = Ok ir) ∧
      (getitem (ram s) (pc s + 1) = Raise IndexError ∨
       (∃ a, getitem (ram s) (pc s + 1) = Ok a) ∧
       getitem (ram s) (pc s + 2) = Raise IndexError)).
    { destruct (decide (pc s < -256 ∨ 256 ≤ pc s)).
      - left. apply getitem_out_of_range. rewrite Hlen. lia.
      - right. split; [apply getitem_in_range; rewrite Hlen; lia|].
        destruct (decide (pc s = 255)).
        + left. apply getitem_out_of_range. rewrite Hlen. lia.
        + right. split; [apply getitem_in_range; rewrite Hlen; lia|].
          apply getitem_out_of_range. rewrite Hlen. lia. }
    split.
    + intros ir a b (Hi & Ha & Hb).
      destruct Hcases as [H|[_ [H|[_ H]]]]; congruence.
    + unfold CpuAdditions.step, Cpu.step. run_monad.
      destruct Hcases as [->|[[ir ->] [->|[[a ->] ->]]]]; done.
Qed.

Lemma fetch_window_witness :
  (∀ ir a b, ¬ fetches ir a b (set_pc 510 CPU_init)) ∧
  CpuAdditions.step (set_pc 510 CPU_init) =
    (Raise IndexError, set_pc 510 CPU_init) ∧
  Cpu.step (set_pc 510 CPU_init) = (Raise IndexError, set_pc 510 CPU_init).
Proof.
  apply (proj2 (fetch_window (set_pc 510 CPU_init) eq_refl)).
  right. simpl. lia.
Defined.

(** ** HLT *)

(** X6.  When the fetched byte is HLT, one iteration clears [running] and
    changes nothing else (the program counter stays on the HLT), and the
    loop then ends normally however much longer it is allowed to run; both
    classes agree. *)
Theorem hlt_stops_the_loop a b s fuel :
  running s = true →
  fetches HLT a b s →
  CpuAdditions.run (S fuel) s = (Some (Ok tt), set_running false s) ∧
  Cpu.run (S fuel) s = (Some (Ok tt), set_running false s).
Proof.
  intros Hrun (Hi & Ha & Hb).
  assert (Hext : CpuAdditions.step s = (Ok tt, set_running false s)).
  { unfold CpuAdditions.step. run_monad. by rewrite Hi, Ha, Hb. }
  assert (Hmin : Cpu.step s = (Ok tt, set_running false s)).
  { unfold Cpu.step. run_monad. by rewrite Hi, Ha, Hb. }
  unfold CpuAdditions.run, Cpu.run.
  rewrite !(loop_unfold _ (S fuel)), Hrun, Hext, Hmin.
  by rewrite !loop_unfold.
Qed.

Lemma hlt_stops_the_loop_witness :
  CpuAdditions.run 3 (loaded [HLT]) =
    (Some (Ok tt), set_running false (loaded [HLT])) ∧
  Cpu.run 3 (loaded [HLT]) =
    (Some (Ok tt), set_running false (loaded [HLT])).
Proof.
  apply (hlt_stops_the_loop 0 0 (loaded [HLT]) 2); by vm_compute.
Defined.

(** ** Register writes of the extended class *)

Lemma land_LIM_mod z : Z.land z LIM = z mod 256.
Proof. change LIM with (Z.ones 8). by rewrite Z.land_ones by lia. Qed.

(** [s'] is [s] with value [v] in register [r] and the program counter at
    [p]: the other registers, the memory, the flag, [running] and the
    output are those of [s]. *)
Definition writes_register (s s' : CPU) (r v p : Z) : Prop :=
  getitem (reg s') r = Ok v ∧
  (∀ j, 0 ≤ j ≤ 7 → j ≠ r → getitem (reg s') j = getitem (reg s) j) ∧
  length (reg s') = length (reg s) ∧
  pc s' = p ∧ ram s' = ram s ∧ sp s' = sp s ∧ flag s' = flag s ∧
  running s' = running s ∧ console s' = console s.

Lemma writes_register_insert s r v p :
  length (reg s) = 8%nat → 0 ≤ r ≤ 7 →
  writes_register s (set_pc p (set_reg (<[Z.to_nat r := v]> (reg s)) s)) r v p.
Proof.
  intros Hreg Hr. unfold writes_register. mred.
  rewrite getitem_insert, decide_True by (rewrite ?Hreg; lia || done).
  repeat split; try done; [|by rewrite length_insert].
  intros j Hj Hne.
  rewrite getitem_insert by (rewrite Hreg; lia).
  by rewrite decide_False by done.
Qed.

(** Evaluates the comparisons of [op] against the operation names. *)
Ltac eval_op :=
  repeat match goal with
         | |- context [py_eq (PyStr ?a) (PyStr ?b)] =>
             let r := eval vm_compute in (py_eq (PyStr a) (PyStr b)) in
             change (py_eq (PyStr a) (PyStr b)) with r
         end;
  cbv iota.

Section RegisterWrites.

Import CpuAdditions.

Variable s : CPU.
Hypothesis Hwf : wf s.

Lemma masked_register z : ∃ v, getitem (reg s) (z mod 8) = Ok v.
Proof using Hwf.
  destruct Hwf as (_ & Hreg & _).
  apply getitem_in_range. rewrite Hreg.
  pose proof (Z.mod_pos_bound z 8). lia.
Qed.

Lemma alu_binary name (f : Z → Z → Z) a b x y :
  getitem (reg s) (a mod 8) = Ok x →
  getitem (reg s) (b mod 8) = Ok y →
  (alu (PyStr name) a b =
     (let reg_a := Z.land a OOI in
      let reg_b := Z.land b OOI in
      x <- reg_load reg_a ;; y <- reg_load reg_b ;;
      reg_store reg_a (f x y))) →
  (alu (PyStr name) a b ;;; pc_add 3) s =
    (Ok tt, set_pc (pc s + 3)
              (set_reg (<[Z.to_nat (a mod 8) := f x y]> (reg s)) s)).
Proof using Hwf.
  intros Hx Hy ->. destruct Hwf as (_ & Hreg & _).
  cbv zeta. rewrite !land_OOI_mod. run_monad. rewrite Hx, Hy. mred.
  rewrite setitem_nonneg; [done|].
  rewrite Hreg. pose proof (Z.mod_pos_bound a 8). lia.
Qed.

End RegisterWrites.

(** X7.  ADD, SUB and MUL of the extended class return for every pair of
    operand bytes on a well-formed CPU: each takes the registers numbered
    by the operands modulo 8, leaves their sum, difference or product
    (not reduced) in the first one and moves the program counter on by 3;
    no other register, no memory cell and no flag changes. *)
Theorem arithmetic_handlers_write_one_register a b s :
  wf s →
  ∃ x y s1 s2 s3,
    getitem (reg s) (a mod 8) = Ok x ∧
    getitem (reg s) (b mod 8) = Ok y ∧
    CpuAdditions.add a b s = (Ok tt, s1) ∧
    writes_register s s1 (a mod 8) (x + y) (pc s + 3) ∧
    CpuAdditions.subtract a b s = (Ok tt, s2) ∧
    writes_register s s2 (a mod 8) (x - y) (pc s + 3) ∧
    CpuAdditions.multiply a b s = (Ok tt, s3) ∧
    writes_register s s3 (a mod 8) (x * y) (pc s + 3).
Proof.
  intros Hwf. pose proof Hwf as (_ & Hreg & _).
  destruct (masked_register s Hwf a) as [x Hx].
  destruct (masked_register s Hwf b) as [y Hy].
  pose proof (Z.mod_pos_bound a 8).
  exists x, y. do 3 eexists.
  split; [done|]. split; [done|].
  split; [by apply (alu_binary s Hwf "ADD" Z.add a b x y)|].
  split; [apply writes_register_insert; lia|].
  split; [by apply (alu_binary s Hwf "SUB" Z.sub a b x y)|].
  split; [apply writes_register_insert; lia|].
  split; [by apply (alu_binary s Hwf "MUL" Z.mul a b x y)|].
  apply writes_register_insert; lia.
Qed.

Lemma arithmetic_handlers_write_one_register_witness :
  ∃ x y s1 s2 s3,
    getitem (reg CPU_init) (9 mod 8) = Ok x ∧
    getitem (reg CPU_init) (250 mod 8) = Ok y ∧
    CpuAdditions.add 9 250 CPU_init = (Ok tt, s1) ∧
    writes_register CPU_init s1 (9 mod 8) (x + y) (pc CPU_init + 3) ∧
    CpuAdditions.subtract 9 250 CPU_init = (Ok tt, s2) ∧
    writes_register CPU_init s2 (9 mod 8) (x - y) (pc CPU_init + 3) ∧
    CpuAdditions.multiply 9 250 CPU_init = (Ok tt, s3) ∧
    writes_register CPU_init s3 (9 mod 8) (x * y) (pc CPU_init + 3).
Proof.
  apply (arithmetic_handlers_write_one_register 9 250 CPU_init).
  by vm_compute.
Defined.

Lemma alu_step_by name (d : Z) a b x s :
  wf s →
  getitem (reg s) (a mod 8) = Ok x →
  (CpuAdditions.alu (PyStr name) a b =
     (let reg_a := Z.land a OOI in
      let reg_b := Z.land b OOI in
      x <- reg_load reg_a ;; reg_store reg_a (x + d) ;;;
      x' <- reg_load reg_a ;; reg_store reg_a (Z.land x' LIM))) →
  CpuAdditions.alu (PyStr name) a b s =
    (Ok tt, set_reg (<[Z.to_nat (a mod 8) := (x + d) mod 256]> (reg s)) s).
Proof.
  intros (_ & Hreg & _) Hx ->. pose proof (Z.mod_pos_bound a 8).
  cbv zeta. rewrite !land_OOI_mod. run_monad. rewrite Hx. mred.
  rewrite setitem_nonneg by (rewrite Hreg; lia). mred.
  rewrite getitem_insert, decide_True by (rewrite ?Hreg; lia || done). mred.
  rewrite setitem_nonneg by (rewrite length_insert, Hreg; lia).
  by rewrite list_insert_insert_eq, land_LIM_mod.
Qed.

(** X8.  The ALU's INC and DEC operations return for every operand byte
    on a well-formed CPU and leave in the register numbered by the first
    operand modulo 8 its old value plus or minus one reduced modulo 256,
    hence a value in [0,255] whatever integer the register held; nothing
    else changes, the program counter included. *)
Theorem inc_dec_wrap_to_a_byte a b s :
  wf s →
  ∃ x s1 s2,
    getitem (reg s) (a mod 8) = Ok x ∧
    CpuAdditions.alu (PyStr "INC") a b s = (Ok tt, s1) ∧
    writes_register s s1 (a mod 8) ((x + 1) mod 256) (pc s) ∧
    CpuAdditions.alu (PyStr "DEC") a b s = (Ok tt, s2) ∧
    writes_register s s2 (a mod 8) ((x - 1) mod 256) (pc s) ∧
    0 ≤ (x + 1) mod 256 ≤ 255 ∧ 0 ≤ (x - 1) mod 256 ≤ 255.
Proof.
  intros Hwf. pose proof Hwf as (_ & Hreg & _).
  destruct (masked_register s Hwf a) as [x Hx].
  pose proof (Z.mod_pos_bound a 8).
  pose proof (Z.mod_pos_bound (x + 1) 256).
  pose proof (Z.mod_pos_bound (x - 1) 256).
  exists x. do 2 eexists.
  split; [done|].
  split; [by apply (alu_step_by "INC" 1 a b x s)|].
  split; [apply (writes_register_insert s _ _ (pc s)); lia|].
  split; [by apply (alu_step_by "DEC" (-1) a b x s)|].
  split; [apply (writes_register_insert s _ _ (pc s)); lia|].
  lia.
Qed.

Lemma inc_dec_wrap_to_a_byte_witness :
  let s := snd (CpuAdditions.run 1 (loaded [LDI; 3; 255; HLT])) in
  ∃ x s1 s2,
    getitem (reg s) (11 mod 8) = Ok x ∧
    CpuAdditions.alu (PyStr "INC") 11 0 s = (Ok tt, s1) ∧
    writes_register s s1 (11 mod 8) ((x + 1) mod 256) (pc s) ∧
    CpuAdditions.alu (PyStr "DEC") 11 0 s = (Ok tt, s2) ∧
    writes_register s s2 (11 mod 8) ((x - 1) mod 256) (pc s) ∧
    0 ≤ (x + 1) mod 256 ≤ 255 ∧ 0 ≤ (x - 1) mod 256 ≤ 255.
Proof.
  intros s. apply (inc_dec_wrap_to_a_byte 11 0 s). by vm_compute.
Defined.

(** X9.  LDI of the extended class returns for every pair of operand
    bytes on a well-formed CPU: the register numbered by the first operand
    modulo 8 receives the second operand modulo 256, a value in [0,255],
    the program counter moves on by 3 and nothing else changes. *)
Theorem ldi_loads_a_byte a b s :
  wf s →
  ∃ s1,
    CpuAdditions.ldi a b s = (Ok tt, s1) ∧
    writes_register s s1 (a mod 8) (b mod 256) (pc s + 3) ∧
    0 ≤ b mod 256 ≤ 255.
Proof.
  intros (_ & Hreg & _).
  pose proof (Z.mod_pos_bound a 8). pose proof (Z.mod_pos_bound b 256).
  eexists. split; [|split; [|lia]].
  - unfold CpuAdditions.ldi. cbv zeta.
    rewrite land_OOI_mod, land_LIM_mod. run_monad.
    rewrite setitem_nonneg by (rewrite Hreg; lia). done.
  - mred. apply writes_register_insert; lia.
Qed.

Lemma ldi_loads_a_byte_witness :
  ∃ s1,
    CpuAdditions.ldi 15 300 CPU_init = (Ok tt, s1) ∧
    writes_register CPU_init s1 (15 mod 8) (300 mod 256) (pc CPU_init + 3) ∧
    0 ≤ 300 mod 256 ≤ 255.
Proof.
  apply (ldi_loads_a_byte 15 300 CPU_init). by vm_compute.
Defined.

(** ** The two classes on their common instructions *)

(** X10.  On HLT and PRN, on LDI with a register operand in [0,7] and a
    value in [0,255], and on ADD, SUB and MUL with both register operands
    in [0,7], an iteration of [cpu.py]'s loop and an iteration of
    [cpu_additions.py]'s loop do exactly the same to the CPU. *)
Theorem classes_agree_on_common_instructions ir a b s :
  fetches ir a b s →
  ir = HLT ∨ ir = PRN ∨
  (ir = LDI ∧ 0 ≤ a ≤ 7 ∧ 0 ≤ b ≤ 255) ∨
  ((ir = ADD ∨ ir = SUB ∨ ir = MUL) ∧ 0 ≤ a ≤ 7 ∧ 0 ≤ b ≤ 7) →
  Cpu.step s = CpuAdditions.step s.
Proof.
  intros (Hi & Ha & Hb) Hir.
  unfold Cpu.step, CpuAdditions.step.
  unfold bind at 1 2 3 4 5 6. unfold bind at 3 4 5 6 7 8.
  unfold ram_read, ram_load, bind, gets, lift. rewrite Hi, Ha, Hb.
  destruct Hir as [->|[->|[(-> & Hra & Hvb)|(Hop & Hra & Hrb)]]].
  - reflexivity.
  - reflexivity.
  - change (CpuAdditions.branchtable !! LDI) with (Some CpuAdditions.ldi).
    cbn [Z.eqb HLT LDI Pos.eqb]. unfold CpuAdditions.ldi. cbv zeta.
    rewrite land_OOI_id by done.
    rewrite land_LIM_mod, Z.mod_small by lia. reflexivity.
  - destruct Hop as [->|[->| ->]].
    + change (CpuAdditions.branchtable !! ADD) with (Some CpuAdditions.add).
      cbn [Z.eqb HLT LDI PRN ADD Pos.eqb].
      unfold CpuAdditions.add, CpuAdditions.alu, Cpu.alu. cbv zeta.
      by rewrite !land_OOI_id by done.
    + change (CpuAdditions.branchtable !! SUB)
        with (Some CpuAdditions.subtract).
      cbn [Z.eqb HLT LDI PRN ADD SUB Pos.eqb].
      unfold CpuAdditions.subtract, CpuAdditions.alu, Cpu.alu. cbv zeta.
      by rewrite !land_OOI_id by done.
    + change (CpuAdditions.branchtable !! MUL)
        with (Some CpuAdditions.multiply).
      cbn [Z.eqb HLT LDI PRN ADD SUB MUL Pos.eqb].
      unfold CpuAdditions.multiply, CpuAdditions.alu, Cpu.alu. cbv zeta.
      by rewrite !land_OOI_id by done.
Qed.

Lemma classes_agree_on_common_instructions_witness :
  let s := snd (CpuAdditions.run 2 (loaded add_255_255)) in
  fetches ADD 0 1 s ∧ Cpu.step s = CpuAdditions.step s.
Proof.
  intros s. assert (Hf : fetches ADD 0 1 s) by (by vm_compute).
  split; [exact Hf|].
  apply (classes_agree_on_common_instructions ADD 0 1 s Hf).
  right. right. right. split; [by left | lia].
Defined.

(** ** What an iteration of the extended loop leaves alone *)

Lemma preserves_reg_store (P : CPU → Prop) i v :
  (∀ s r, P s → P (set_reg r s)) → preserves P (reg_store i v).
Proof.
  intros HP s Hs. unfold reg_store. run_monad.
  destruct (setitem (reg s) i v); [by apply HP|done].
Qed.

Lemma preserves_ram_store (P : CPU → Prop) i v :
  (∀ s r, P s → P (set_ram r s)) → preserves P (ram_store i v).
Proof.
  intros HP s Hs. unfold ram_store. run_monad.
  destruct (setitem (ram s) i v); [by apply HP|done].
Qed.

(** Like [preserves_steps], for a predicate that reads one attribute: the
    stores and assignments to the other attributes are discharged by
    computation. *)
Ltac frame_method :=
  unfold ram_read, ram_write, ram_load, reg_load, pc_add, print;
  repeat first
    [ solve [auto 2]
    | apply preserves_reg_store; by intros
    | apply preserves_ram_store; by intros
    | apply preserves_modify; by intros
    | apply preserves_ret | apply preserves_raise | apply preserves_gets
    | apply preserves_lift
    | match goal with
      | |- preserves _ (reg_store _ _) => fail 2
      | |- preserves _ (ram_store _ _) => fail 2
      | |- preserves _ (modify _) => fail 2
      | |- preserves _ (if ?c then _ else _) => destruct c
      | |- preserves _ (match ?c with Some _ => _ | None => _ end) =>
          destruct c eqn:?
      | |- preserves _ (let _ := _ in _) => cbv zeta
      end
    | apply preserves_bind; [|intros ?] ].

Definition ram_is (cells : list Z) (s : CPU) : Prop := ram s = cells.
Definition console_is (lines : list line) (s : CPU) : Prop :=
  console s = lines.

Section Frames.

Import CpuAdditions.

Lemma alu_keeps_ram cells op a b : preserves (ram_is cells) (alu op a b).
Proof. unfold alu. frame_method. Qed.

Lemma sp_add_keeps_ram cells n : preserves (ram_is cells) (sp_add n).
Proof. unfold sp_add. frame_method. Qed.

Lemma handlers_keep_ram cells ir handler a b :
  branchtable !! ir = Some handler → ir ≠ PUSH → ir ≠ CALL →
  preserves (ram_is cells) (handler a b).
Proof.
  intros H Hpush Hcall. apply elem_of_list_to_map_2 in H.
  repeat (apply elem_of_cons in H as [[= -> ->]|H]);
    [..|by apply elem_of_nil in H]; try done.
  all: unfold halt, ldi, print_, add, subtract, multiply, pop,
         _return, compare, jump_if_equal, jump_if_not_equal, jump,
         flag_load.
  all: pose proof (alu_keeps_ram cells).
  all: pose proof (sp_add_keeps_ram cells).
  all: frame_method.
Qed.

Lemma alu_keeps_console lines op a b :
  preserves (console_is lines) (alu op a b).
Proof. unfold alu. frame_method. Qed.

Lemma sp_add_keeps_console lines n : preserves (console_is lines) (sp_add n).
Proof. unfold sp_add. frame_method. Qed.

Lemma handlers_keep_console lines ir handler a b :
  branchtable !! ir = Some handler → ir ≠ PRN →
  preserves (console_is lines) (handler a b).
Proof.
  intros H Hprn. apply elem_of_list_to_map_2 in H.
  repeat (apply elem_of_cons in H as [[= -> ->]|H]);
    [..|by apply elem_of_nil in H]; try done.
  all: unfold halt, ldi, add, subtract, multiply, push, pop, call,
         _return, compare, jump_if_equal, jump_if_not_equal, jump,
         flag_load.
  all: pose proof (alu_keeps_console lines).
  all: pose proof (sp_add_keeps_console lines).
  all: frame_method.
Qed.

End Frames.

(** X11.  Only PUSH and CALL write memory in the extended class: an
    iteration that fetches any other byte leaves every memory cell as it
    was, whether its handler returns or raises (POP and RET only read the
    stack slot). *)
Theorem only_push_and_call_write_memory ir a b s :
  fetches ir a b s →
  ir ≠ PUSH → ir ≠ CALL →
  ram (snd (CpuAdditions.step s)) = ram s.
Proof.
  intros (Hi & Ha & Hb) Hpush Hcall.
  unfold CpuAdditions.step. run_monad. rewrite Hi, Ha, Hb.
  destruct (CpuAdditions.branchtable !! ir) as [handler|] eqn:E; [|done].
  by apply (handlers_keep_ram (ram s) ir handler a b E Hpush Hcall s).
Qed.

Definition push_pop_5 : list Z :=
  [LDI; 0; 5; PUSH; 0; LDI; 0; 0; POP; 0; HLT].

Lemma only_push_and_call_write_memory_witness :
  let s := snd (CpuAdditions.run 3 (loaded push_pop_5)) in
  fetches POP 0 HLT s ∧ ram (snd (CpuAdditions.step s)) = ram s.
Proof.
  intros s. assert (Hf : fetches POP 0 HLT s) by (by vm_compute).
  split; [exact Hf|].
  apply (only_push_and_call_write_memory POP 0 HLT s Hf); discriminate.
Defined.

(** X12.  Only PRN prints in the extended class: an iteration that fetches
    any other byte adds nothing to the output, whether its handler returns
    or raises. *)
Theorem only_prn_prints ir a b s :
  fetches ir a b s →
  ir ≠ PRN →
  console (snd (CpuAdditions.step s)) = console s.
Proof.
  intros (Hi & Ha & Hb) Hprn.
  unfold CpuAdditions.step. run_monad. rewrite Hi, Ha, Hb.
  destruct (CpuAdditions.branchtable !! ir) as [handler|] eqn:E; [|done].
  by apply (handlers_keep_console (console s) ir handler a b E Hprn s).
Qed.

Lemma only_prn_prints_witness :
  fetches LDI 0 8 (loaded [LDI; 0; 8; PRN; 0; HLT]) ∧
  console (snd (CpuAdditions.step (loaded [LDI; 0; 8; PRN; 0; HLT]))) =
  console (loaded [LDI; 0; 8; PRN; 0; HLT]).
Proof.
  assert (Hf : fetches LDI 0 8 (loaded [LDI; 0; 8; PRN; 0; HLT]))
    by (by vm_compute).
  split; [exact Hf|].
  apply (only_prn_prints LDI 0 8 _ Hf). discriminate.
Defined.

(** ** Values of the compare flag *)

(** The flag is unassigned or holds one of the three codes [alu] assigns. *)
Definition flag_valid (s : CPU) : Prop :=
  flag s = None ∨ flag s = Some HLT ∨ flag s = Some 4 ∨ flag s = Some 2.

Lemma flag_valid_set_flag v :
  v = HLT ∨ v = 4 ∨ v = 2 → preserves flag_valid (modify (set_flag v)).
Proof.
  intros Hv. apply preserves_modify. intros s _. unfold flag_valid.
  cbn [flag set_flag]. destruct Hv as [->|[->| ->]]; auto.
Qed.

Section FlagValues.

Import CpuAdditions.

Lemma alu_flag_valid op a b : preserves flag_valid (alu op a b).
Proof.
  pose proof (flag_valid_set_flag HLT (or_introl eq_refl)).
  pose proof (flag_valid_set_flag 4 (or_intror (or_introl eq_refl))).
  pose proof (flag_valid_set_flag 2 (or_intror (or_intror eq_refl))).
  unfold alu. frame_method.
Qed.

Lemma sp_add_flag_valid n : preserves flag_valid (sp_add n).
Proof. unfold sp_add. frame_method. Qed.

Lemma handlers_flag_valid ir handler a b :
  branchtable !! ir = Some handler → preserves flag_valid (handler a b).
Proof.
  intros H. apply elem_of_list_to_map_2 in H.
  repeat (apply elem_of_cons in H as [[= -> ->]|H]);
    [..|by apply elem_of_nil in H].
  all: unfold halt, ldi, print_, add, subtract, multiply, push, pop, call,
         _return, compare, jump_if_equal, jump_if_not_equal, jump,
         flag_load.
  all: pose proof alu_flag_valid.
  all: pose proof sp_add_flag_valid.
  all: frame_method.
Qed.

Lemma step_flag_valid : preserves flag_valid step.
Proof.
  unfold step. frame_method. by eapply handlers_flag_valid.
Qed.

End FlagValues.

(** X13.  However long the extended loop runs on whatever was loaded, the
    compare flag is either still unassigned or one of the three codes 1
    (equal), 4 (less) and 2 (greater). *)
Theorem flag_holds_a_compare_code program fuel :
  flag_valid (snd (CpuAdditions.run fuel (loaded program))).
Proof.
  apply (loop_preserves flag_valid CpuAdditions.step step_flag_valid).
  left. apply flag_loaded.
Qed.

(** ** Opcodes the ALU knows and the dispatchers do not *)

(** X14.  The INC and DEC opcodes, although [alu] implements both
    operations, are dispatched by neither class: fetching one raises
    [KeyError] with that opcode in the extended class and only prints
    "Instruction not valid" in the minimal one. *)
Theorem inc_dec_are_not_dispatched ir a b s :
  fetches ir a b s →
  ir = INC ∨ ir = DEC →
  CpuAdditions.step s = (Raise (KeyError ir), s) ∧
  Cpu.step s = (Ok tt, emit (PrintStr "Instruction not valid") s).
Proof.
  intros Hf Hir. split.
  - apply (additions_unknown_opcode_raises ir a b s); [|done].
    destruct Hir as [->| ->]; by apply (bool_decide_unpack _).
  - apply (step_unknown ir a b); [|done].
    destruct Hir as [->| ->]; by apply (bool_decide_unpack _).
Qed.

Lemma inc_dec_are_not_dispatched_witness :
  fetches DEC 0 HLT (loaded [DEC; 0; HLT]) ∧
  CpuAdditions.step (loaded [DEC; 0; HLT]) =
    (Raise (KeyError DEC), loaded [DEC; 0; HLT]) ∧
  Cpu.step (loaded [DEC; 0; HLT]) =
    (Ok tt, emit (PrintStr "Instruction not valid") (loaded [DEC; 0; HLT])).
Proof.
  assert (Hf : fetches DEC 0 HLT (loaded [DEC; 0; HLT])) by (by vm_compute).
  split; [exact Hf|].
  apply (inc_dec_are_not_dispatched DEC 0 HLT _ Hf). by right.
Defined.

(** ** The stack at the ends of memory *)

(** X15.  With a stack pointer from which one decrement no longer
    subscripts the memory list, PUSH and CALL raise [IndexError] after
    having decremented register 7: the CPU is left with the decremented
    stack pointer and otherwise unchanged. *)
Theorem push_and_call_fail_after_decrement a b s top :
  wf s →
  0 ≤ a ≤ 7 →
  getitem (reg s) 7 = Ok top →
  top < -255 ∨ 256 < top →
  CpuAdditions.push a b s =
    (Raise IndexError, set_reg (<[7%nat := top - 1]> (reg s)) s) ∧
  CpuAdditions.call a b s =
    (Raise IndexError, set_reg (<[7%nat := top - 1]> (reg s)) s).
Proof.
  intros Hwf Ha Htop Hrange. pose proof Hwf as (Hram & Hreg & Hsp).
  destruct (getitem_in_range (reg s) a) as [v Hv]; [rewrite Hreg; lia|].
  assert (Hout : ∀ w, setitem (ram s) (top - 1) w = Raise IndexError).
  { intros w. apply setitem_out_of_range. rewrite Hram. lia. }
  split.
  - unfold CpuAdditions.push, bind at 1.
    rewrite (sp_add_spec s Hwf top Htop). run_monad.
    rewrite Hsp, !getitem_insert_nat by (rewrite Hreg; lia).
    rewrite (decide_True (P := Z.of_nat 7 = 7)) by done.
    destruct (decide (Z.of_nat 7 = a)); rewrite ?Hv; mred;
      change (top + -1) with (top - 1); by rewrite Hout.
  - unfold CpuAdditions.call, bind at 1.
    rewrite (sp_add_spec s Hwf top Htop). run_monad.
    rewrite Hsp, !getitem_insert_nat by (rewrite Hreg; lia).
    rewrite (decide_True (P := Z.of_nat 7 = 7)) by done. mred.
    change (top + -1) with (top - 1). by rewrite Hout.
Qed.

Lemma push_and_call_fail_after_decrement_witness :
  let s := set_reg (<[7%nat := -256]> (reg CPU_init)) CPU_init in
  CpuAdditions.push 0 0 s =
    (Raise IndexError, set_reg (<[7%nat := -256 - 1]> (reg s)) s) ∧
  CpuAdditions.call 0 0 s =
    (Raise IndexError, set_reg (<[7%nat := -256 - 1]> (reg s)) s).
Proof.
  intros s. apply (push_and_call_fail_after_decrement 0 0 s (-256)).
  - by vm_compute.
  - lia.
  - by vm_compute.
  - left. lia.
Defined.

(** X16.  With a stack pointer that does not subscript the memory list,
    POP and RET raise [IndexError] on reading the stack slot and leave the
    CPU exactly as it was. *)
Theorem pop_and_ret_fail_untouched a b s top :
  wf s →
  getitem (reg s) 7 = Ok top →
  top < -256 ∨ 255 < top →
  CpuAdditions.pop a b s = (Raise IndexError, s) ∧
  CpuAdditions._return a b s = (Raise IndexError, s).
Proof.
  intros (Hram & Hreg & Hsp) Htop Hrange.
  assert (Hout : getitem (ram s) top = Raise IndexError).
  { apply getitem_out_of_range. rewrite Hram. lia. }
  unfold CpuAdditions.pop, CpuAdditions._return. run_monad.
  by rewrite Hsp, Htop, Hout.
Qed.

Lemma pop_and_ret_fail_untouched_witness :
  let s := set_reg (<[7%nat := 256]> (reg CPU_init)) CPU_init in
  CpuAdditions.pop 0 0 s = (Raise IndexError, s) ∧
  CpuAdditions._return 0 0 s = (Raise IndexError, s).
Proof.
  intros s. apply (pop_and_ret_fail_untouched 0 0 s 256).
  - by vm_compute.
  - by vm_compute.
  - right. lia.
Defined.

(** ** Nested PUSH and POP *)

Lemma adjacent_cells_differ n : (n - 1) mod 256 ≠ n mod 256.
Proof.
  pose proof (Z.div_mod n 256). pose proof (Z.div_mod (n - 1) 256).
  pose proof (Z.mod_pos_bound n 256). pose proof (Z.mod_pos_bound (n - 1) 256).
  lia.
Qed.

Section StackEffects.

Import CpuAdditions.

Variable s : CPU.
Hypothesis Hwf : wf s.
Variable top : Z.
Hypothesis Htop : getitem (reg s) 7 = Ok top.

Lemma push_effect a o v :
  0 ≤ a ≤ 6 → getitem (reg s) a = Ok v → -255 ≤ top ≤ 256 →
  ∃ s1,
    push a o s = (Ok tt, s1) ∧ wf s1 ∧
    getitem (reg s1) 7 = Ok (top - 1) ∧
    getitem (ram s1) (top - 1) = Ok v ∧
    (∀ j, 0 ≤ j ≤ 6 → getitem (reg s1) j = getitem (reg s) j) ∧
    (∀ i, -256 ≤ i ≤ 255 → i mod 256 ≠ (top - 1) mod 256 →
          getitem (ram s1) i = getitem (ram s) i) ∧
    pc s1 = pc s + 2.
Proof using Hwf Htop.
  intros Ha Hv Hrange. pose proof Hwf as (Hram & Hreg & Hsp).
  destruct (push_spec s Hwf top Htop a o v) as (ram' & Hset & Hpush);
    [lia|done|done|].
  rewrite decide_False in Hset by lia.
  eexists. split; [exact Hpush|]. mred.
  pose proof (getitem_setitem _ _ _ _ Hset) as [Hget Hlen].
  split; [unfold wf; mred; by rewrite Hlen, length_insert|].
  split; [by rewrite getitem_insert_nat by (rewrite Hreg; lia)|].
  split; [done|].
  split.
  { intros j Hj. rewrite getitem_insert_nat by (rewrite Hreg; lia).
    by rewrite decide_False by (simpl; lia). }
  split; [|done].
  intros i Hi Hne.
  apply (getitem_setitem_ne (ram s) ram' (top - 1) i v
           (Z.to_nat ((top - 1) mod 256)) (Z.to_nat (i mod 256))).
  - rewrite Hram. apply subscript_mod; lia.
  - rewrite Hram. apply subscript_mod; lia.
  - pose proof (Z.mod_pos_bound (top - 1) 256).
    pose proof (Z.mod_pos_bound i 256). lia.
  - done.
Qed.

Lemma pop_effect c o v :
  0 ≤ c ≤ 6 → getitem (ram s) top = Ok v →
  ∃ s1,
    pop c o s = (Ok tt, s1) ∧ wf s1 ∧
    getitem (reg s1) 7 = Ok (top + 1) ∧
    getitem (reg s1) c = Ok v ∧
    (∀ j, 0 ≤ j ≤ 6 → j ≠ c → getitem (reg s1) j = getitem (reg s) j) ∧
    ram s1 = ram s ∧
    pc s1 = pc s + 2.
Proof using Hwf Htop.
  intros Hc Hv. pose proof Hwf as (Hram & Hreg & Hsp).
  eexists. split; [exact (pop_spec s Hwf top Htop c o v ltac:(lia) Hv)|].
  mred. rewrite decide_False by lia.
  split; [unfold wf; mred; by rewrite !length_insert|].
  split.
  { rewrite getitem_insert_nat by (rewrite length_insert, Hreg; lia).
    by rewrite decide_True by done. }
  split.
  { rewrite getitem_insert_nat by (rewrite length_insert, Hreg; lia).
    rewrite decide_False by (simpl; lia).
    rewrite getitem_insert by (rewrite Hreg; lia).
    by rewrite decide_True by done. }
  split; [|done].
  intros j Hj Hne.
  rewrite getitem_insert_nat by (rewrite length_insert, Hreg; lia).
  rewrite decide_False by (simpl; lia).
  rewrite getitem_insert by (rewrite Hreg; lia).
  by rewrite decide_False by done.
Qed.

End StackEffects.

(** X17.  The stack is last-in first-out: for registers other than the
    stack pointer, PUSH [a]; PUSH [b]; POP [c]; POP [d] with [c] and [d]
    distinct returns with the old value of [b] in [c], the old value of
    [a] in [d], register 7 back where it was and the program counter 8
    further, provided two decrements of the stack pointer still subscript
    the memory list. *)
Theorem nested_push_pop_is_lifo a b c d o1 o2 o3 o4 s top x y :
  wf s →
  0 ≤ a ≤ 6 → 0 ≤ b ≤ 6 → 0 ≤ c ≤ 6 → 0 ≤ d ≤ 6 → c ≠ d →
  getitem (reg s) 7 = Ok top → -254 ≤ top ≤ 256 →
  getitem (reg s) a = Ok x → getitem (reg s) b = Ok y →
  ∃ s',
    (CpuAdditions.push a o1 ;;; CpuAdditions.push b o2 ;;;
     CpuAdditions.pop c o3 ;;; CpuAdditions.pop d o4) s = (Ok tt, s') ∧
    getitem (reg s') c = Ok y ∧
    getitem (reg s') d = Ok x ∧
    getitem (reg s') 7 = Ok top ∧
    pc s' = pc s + 8.
Proof.
  intros Hwf Ha Hb Hc Hd Hcd Htop Hrange Hx Hy.
  destruct (push_effect s Hwf top Htop a o1 x)
    as (s1 & E1 & Hwf1 & Htop1 & Hslot1 & Hreg1 & _ & Hpc1);
    [lia|done|lia|].
  destruct (push_effect s1 Hwf1 (top - 1) Htop1 b o2 y)
    as (s2 & E2 & Hwf2 & Htop2 & Hslot2 & Hreg2 & Hram2 & Hpc2);
    [lia|by rewrite Hreg1|lia|].
  destruct (pop_effect s2 Hwf2 (top - 1 - 1) Htop2 c o3 y)
    as (s3 & E3 & Hwf3 & Htop3 & Hc3 & Hreg3 & Hram3 & Hpc3);
    [lia|done|].
  replace (top - 1 - 1 + 1) with (top - 1) in Htop3 by lia.
  destruct (pop_effect s3 Hwf3 (top - 1) Htop3 d o4 x)
    as (s4 & E4 & Hwf4 & Htop4 & Hd4 & Hreg4 & Hram4 & Hpc4); [lia| |].
  { rewrite Hram3, Hram2; [done|lia|].
    intros E. by apply (adjacent_cells_differ (top - 1)). }
  exists s4. split.
  { unfold bind. by rewrite E1, E2, E3, E4. }
  split; [by rewrite Hreg4 by (lia || done)|].
  split; [done|].
  split; [rewrite Htop4; f_equal; lia|lia].
Qed.

Definition two_values : list Z := [LDI; 0; 11; LDI; 1; 22; HLT].

Lemma nested_push_pop_is_lifo_witness :
  let s := snd (CpuAdditions.run 2 (loaded two_values)) in
  ∃ s',
    (CpuAdditions.push 0 0 ;;; CpuAdditions.push 1 0 ;;;
     CpuAdditions.pop 2 0 ;;; CpuAdditions.pop 3 0) s = (Ok tt, s') ∧
    getitem (reg s') 2 = Ok 22 ∧
    getitem (reg s') 3 = Ok 11 ∧
    getitem (reg s') 7 = Ok 0 ∧
    pc s' = pc s + 8.
Proof.
  intros s. apply (nested_push_pop_is_lifo 0 1 2 3 0 0 0 0 s 0 11 22);
    try lia; by vm_compute.
Defined.

(** ** Which instruction writes what *)

Definition reg_is (values : list Z) (s : CPU) : Prop := reg s = values.
Definition running_is (v : bool) (s : CPU) : Prop := running s = v.

Section MoreFrames.

Import CpuAdditions.

Lemma alu_cmp_keeps_reg values a b :
  preserves (reg_is values) (alu (PyStr "CMP") a b).
Proof. unfold alu. eval_op. frame_method. Qed.

Lemma handlers_keep_reg values ir handler a b :
  branchtable !! ir = Some handler →
  ir ∈ [HLT; PRN; CMP; JMP; JEQ; JNE] →
  preserves (reg_is values) (handler a b).
Proof.
  intros H Hir. apply elem_of_list_to_map_2 in H.
  repeat (apply elem_of_cons in H as [[= -> ->]|H]);
    [..|by apply elem_of_nil in H];
    try (exfalso; revert Hir; by apply (bool_decide_unpack _)).
  all: unfold halt, print_, compare, jump_if_equal, jump_if_not_equal, jump,
         flag_load.
  all: pose proof (alu_cmp_keeps_reg values).
  all: frame_method.
Qed.

Lemma alu_keeps_running v op a b : preserves (running_is v) (alu op a b).
Proof. unfold alu. frame_method. Qed.

Lemma sp_add_keeps_running v n : preserves (running_is v) (sp_add n).
Proof. unfold sp_add. frame_method. Qed.

Lemma handlers_keep_running v ir handler a b :
  branchtable !! ir = Some handler → ir ≠ HLT →
  preserves (running_is v) (handler a b).
Proof.
  intros H Hir. apply elem_of_list_to_map_2 in H.
  repeat (apply elem_of_cons in H as [[= -> ->]|H]);
    [..|by apply elem_of_nil in H]; try done.
  all: unfold ldi, print_, add, subtract, multiply, push, pop, call,
         _return, compare, jump_if_equal, jump_if_not_equal, jump,
         flag_load.
  all: pose proof (alu_keeps_running v).
  all: pose proof (sp_add_keeps_running v).
  all: frame_method.
Qed.

End MoreFrames.

(** X18.  Only CMP assigns the compare flag in the extended class: an
    iteration that fetches any other byte leaves the flag as it was
    (unassigned if it was), whether its handler returns or raises. *)
Theorem only_cmp_assigns_flag ir a b s :
  fetches ir a b s →
  ir ≠ CMP →
  flag (snd (CpuAdditions.step s)) = flag s.
Proof.
  intros (Hi & Ha & Hb) Hcmp.
  unfold CpuAdditions.step. run_monad. rewrite Hi, Ha, Hb.
  destruct (CpuAdditions.branchtable !! ir) as [handler|] eqn:E; [|done].
  by apply (flag_handlers (flag s) ir handler a b E Hcmp s).
Qed.

Lemma only_cmp_assigns_flag_witness :
  let s := snd (CpuAdditions.run 3 (loaded cmp_3_5)) in
  fetches JEQ 0 HLT s ∧ flag s = Some 4 ∧
  flag (snd (CpuAdditions.step s)) = flag s.
Proof.
  intros s. assert (Hf : fetches JEQ 0 HLT s) by (by vm_compute).
  split; [exact Hf|]. split; [by vm_compute|].
  apply (only_cmp_assigns_flag JEQ 0 HLT s Hf). discriminate.
Defined.

(** X19.  HLT, PRN, CMP, JMP, JEQ and JNE write no register in the
    extended class: an iteration that fetches one of them leaves the whole
    register list as it was, whether its handler returns or raises. *)
Theorem control_instructions_keep_registers ir a b s :
  fetches ir a b s →
  ir ∈ [HLT; PRN; CMP; JMP; JEQ; JNE] →
  reg (snd (CpuAdditions.step s)) = reg s.
Proof.
  intros (Hi & Ha & Hb) Hir.
  unfold CpuAdditions.step. run_monad. rewrite Hi, Ha, Hb.
  destruct (CpuAdditions.branchtable !! ir) as [handler|] eqn:E; [|done].
  by apply (handlers_keep_reg (reg s) ir handler a b E Hir s).
Qed.

Lemma control_instructions_keep_registers_witness :
  let s := snd (CpuAdditions.run 2 (loaded cmp_3_5)) in
  fetches CMP 0 1 s ∧ reg (snd (CpuAdditions.step s)) = reg s.
Proof.
  intros s. assert (Hf : fetches CMP 0 1 s) by (by vm_compute).
  split; [exact Hf|].
  apply (control_instructions_keep_registers CMP 0 1 s Hf).
  by apply (bool_decide_unpack _).
Defined.

(** X20.  Only HLT clears [running] in the extended class: an iteration
    that fetches any other byte leaves [running] as it was, whether its
    handler returns or raises. *)
Theorem only_hlt_clears_running ir a b s :
  fetches ir a b s →
  ir ≠ HLT →
  running (snd (CpuAdditions.step s)) = running s.
Proof.
  intros (Hi & Ha & Hb) Hhlt.
  unfold CpuAdditions.step. run_monad. rewrite Hi, Ha, Hb.
  destruct (CpuAdditions.branchtable !! ir) as [handler|] eqn:E; [|done].
  by apply (handlers_keep_running (running s) ir handler a b E Hhlt s).
Qed.

Lemma only_hlt_clears_running_witness :
  fetches LDI 0 3 (loaded cmp_3_5) ∧
  running (snd (CpuAdditions.step (loaded cmp_3_5))) =
  running (loaded cmp_3_5).
Proof.
  assert (Hf : fetches LDI 0 3 (loaded cmp_3_5)) by (by vm_compute).
  split; [exact Hf|].
  apply (only_hlt_clears_running LDI 0 3 _ Hf). discriminate.
Defined.

(** ** Advance of the program counter *)

(** [advances n m]: when [m] returns, the program counter is [n] further
    than where [m] started. *)
Definition advances {A} (n : Z) (m : M A) : Prop :=
  ∀ s r s', m s = (Ok r, s') → pc s' = pc s + n.

Lemma advances_bind {A B} n k (m : M A) (f : A → M B) :
  advances n m → (∀ a, advances k (f a)) → advances (n + k) (bind m f).
Proof.
  intros Hm Hf s r s'. unfold bind.
  destruct (m s) as [[a|e] s1] eqn:E; [|done].
  intros Hk. apply Hm in E. apply Hf in Hk. lia.
Qed.

Lemma advances_bind_0 {A B} k (m : M A) (f : A → M B) :
  advances 0 m → (∀ a, advances k (f a)) → advances k (bind m f).
Proof. intros Hm Hf. by apply (advances_bind 0 k). Qed.

Lemma advances_ret {A} (a : A) : advances 0 (ret a).
Proof. intros s r s' [= _ <-]. lia. Qed.

Lemma advances_raise {A} e k : advances k (@raise A e).
Proof. by intros s r s'. Qed.

Lemma advances_gets {A} (f : CPU → A) : advances 0 (gets f).
Proof. intros s r s' [= _ <-]. lia. Qed.

Lemma advances_lift {A} (x : result A) : advances 0 (lift x).
Proof. intros s r s' [= _ <-]. lia. Qed.

Lemma advances_modify f :
  (∀ s, pc (f s) = pc s) → advances 0 (modify f).
Proof. intros Hf s r s' [= _ <-]. rewrite Hf. lia. Qed.

Lemma advances_pc_add n : advances n (pc_add n).
Proof. by intros s r s' [= _ <-]. Qed.

Lemma advances_reg_store i v : advances 0 (reg_store i v).
Proof.
  intros s r s'. unfold reg_store. run_monad.
  destruct (setitem (reg s) i v); [|done]. intros [= _ <-]. simpl. lia.
Qed.

Lemma advances_ram_store i v : advances 0 (ram_store i v).
Proof.
  intros s r s'. unfold ram_store. run_monad.
  destruct (setitem (ram s) i v); [|done]. intros [= _ <-]. simpl. lia.
Qed.

(** Decomposes a computation whose last action is the counter update. *)
Ltac advances_method :=
  unfold ram_read, ram_write, ram_load, reg_load, print;
  repeat first
    [ solve [auto 2]
    | apply advances_pc_add | apply advances_reg_store
    | apply advances_ram_store
    | apply advances_modify; by intros
    | apply advances_ret | apply advances_raise | apply advances_gets
    | apply advances_lift
    | match goal with
      | |- advances _ (reg_store _ _) => fail 2
      | |- advances _ (ram_store _ _) => fail 2
      | |- advances _ (modify _) => fail 2
      | |- advances _ (pc_add _) => fail 2
      | |- advances _ (if ?c then _ else _) => destruct c
      | |- advances _ (match ?c with Some _ => _ | None => _ end) =>
          destruct c eqn:?
      | |- advances _ (let _ := _ in _) => cbv zeta
      end
    | apply advances_bind_0; [|intros ?] ].

Section Advance.

Import CpuAdditions.

Lemma alu_keeps_pc op a b : advances 0 (alu op a b).
Proof. unfold alu. advances_method. Qed.

Lemma sp_add_keeps_pc n : advances 0 (sp_add n).
Proof. unfold sp_add. advances_method. Qed.

(** Operand bytes that the handler of [ir] steps over, for the handlers
    that end by adding a constant to the program counter. *)
Definition operand_bytes (ir : Z) : option Z :=
  if bool_decide (ir ∈ [LDI; ADD; SUB; MUL; CMP]) then Some 2
  else if bool_decide (ir ∈ [PRN; PUSH; POP]) then Some 1
  else None.

Lemma handlers_advance ir handler a b n :
  branchtable !! ir = Some handler →
  operand_bytes ir = Some n →
  advances (1 + n) (handler a b).
Proof.
  intros H Hn. apply elem_of_list_to_map_2 in H.
  repeat (apply elem_of_cons in H as [[= -> ->]|H]);
    [..|by apply elem_of_nil in H];
    vm_compute in Hn; try discriminate Hn; injection Hn as <-.
  all: unfold ldi, print_, add, subtract, multiply, push, pop, compare.
  all: pose proof alu_keeps_pc.
  all: pose proof sp_add_keeps_pc.
  all: advances_method.
Qed.

End Advance.

Lemma step_advances ir a b n s s' :
  fetches ir a b s →
  operand_bytes ir = Some n →
  CpuAdditions.step s = (Ok tt, s') →
  pc s' = pc s + (1 + n).
Proof.
  intros (Hi & Ha & Hb) Hn. unfold CpuAdditions.step. run_monad.
  rewrite Hi, Ha, Hb.
  destruct (CpuAdditions.branchtable !! ir) as [handler|] eqn:E; [|done].
  apply (handlers_advance ir handler a b n E Hn).
Qed.

(** X21.  When an iteration of the extended loop fetches LDI, ADD, SUB,
    MUL or CMP and its handler returns, the program counter is 3 further;
    for PRN, PUSH and POP it is 2 further: the next fetch reads the byte
    right after the instruction's operands. *)
Theorem program_counter_steps_over_operands ir a b s s' :
  fetches ir a b s →
  CpuAdditions.step s = (Ok tt, s') →
  (ir ∈ [LDI; ADD; SUB; MUL; CMP] → pc s' = pc s + 3) ∧
  (ir ∈ [PRN; PUSH; POP] → pc s' = pc s + 2).
Proof.
  intros Hf Hstep. split; intros Hir.
  - apply (step_advances ir a b 2 s s' Hf); [|done].
    repeat (apply elem_of_cons in Hir as [->|Hir]); try done.
    by apply elem_of_nil in Hir.
  - apply (step_advances ir a b 1 s s' Hf); [|done].
    repeat (apply elem_of_cons in Hir as [->|Hir]); try done.
    by apply elem_of_nil in Hir.
Qed.

Lemma program_counter_steps_over_operands_witness :
  let s := snd (CpuAdditions.run 1 (loaded push_pop_5)) in
  fetches PUSH 0 LDI s ∧
  pc (snd (CpuAdditions.step s)) = pc s + 2.
Proof.
  intros s. assert (Hf : fetches PUSH 0 LDI s) by (by vm_compute).
  split; [exact Hf|].
  refine (proj2 (program_counter_steps_over_operands PUSH 0 LDI s _ Hf _) _).
  - by vm_compute.
  - by apply (bool_decide_unpack _).
Defined.

(** ** LDI and POP in the minimal class *)

(** X22.  [cpu.py]'s loop executes LDI without the masks of its [ldi]
    method: with a register operand in [0,7] the register receives the
    value byte exactly as fetched, whatever its size, and the program
    counter moves on by 3; with a register operand of 8 or more the
    iteration raises [IndexError] and changes nothing. *)
Theorem minimal_ldi_stores_operand_as_fetched a b s :
  wf s →
  fetches LDI a b s →
  (0 ≤ a ≤ 7 →
     Cpu.step s =
       (Ok tt, set_pc (pc s + 3) (set_reg (<[Z.to_nat a := b]> (reg s)) s))) ∧
  (8 ≤ a → Cpu.step s = (Raise IndexError, s)).
Proof.
  intros (_ & Hreg & _) (Hi & Ha & Hb).
  split; intros Hrange; unfold Cpu.step; run_monad; rewrite Hi, Ha, Hb;
    change (LDI =? HLT) with false; change (LDI =? LDI) with true; mred.
  - by rewrite setitem_nonneg by (rewrite Hreg; lia).
  - by rewrite setitem_out_of_range by (rewrite Hreg; lia).
Qed.

Lemma minimal_ldi_stores_operand_as_fetched_witness :
  let s := loaded [LDI; 2; 300; HLT] in
  Cpu.step s =
    (Ok tt, set_pc (pc s + 3) (set_reg (<[Z.to_nat 2 := 300]> (reg s)) s)).
Proof.
  intros s.
  refine (proj1 (minimal_ldi_stores_operand_as_fetched 2 300 s _ _) _).
  - by vm_compute.
  - by vm_compute.
  - lia.
Defined.

(** X23.  [cpu.py]'s [pop] never returns on a well-formed CPU: it raises
    [IndexError] and changes nothing when register 7 does not subscript
    the memory list, and otherwise raises "Unsupported ALU operation"
    after having stored the stack slot's value modulo 256 in the register
    numbered by its operand modulo 8, with register 7 not incremented. *)
Theorem minimal_pop_never_returns reg_n s top :
  wf s →
  getitem (reg s) 7 = Ok top →
  (top < -256 ∨ 255 < top → Cpu.pop reg_n s = (Raise IndexError, s)) ∧
  (∀ v, getitem (ram s) top = Ok v →
     Cpu.pop reg_n s =
       (Raise (Exception "Unsupported ALU operation"),
        set_reg (<[Z.to_nat (reg_n mod 8) := v mod 256]> (reg s)) s)).
Proof.
  intros (Hram & Hreg & _) Htop.
  split.
  - intros Hrange. unfold Cpu.pop. run_monad. rewrite Htop. mred.
    by rewrite getitem_out_of_range by (rewrite Hram; lia).
  - intros v Hv. unfold Cpu.pop, Cpu.ldi. run_monad. cbv zeta.
    rewrite Htop. mred. rewrite Hv. mred.
    rewrite !land_OOI_mod, land_LIM_mod, Z.mod_mod by lia.
    pose proof (Z.mod_pos_bound reg_n 8).
    rewrite setitem_nonneg by (rewrite Hreg; lia). mred.
    by rewrite alu_int_op_unsupported.
Qed.

Lemma minimal_pop_never_returns_witness :
  let s := set_ram (<[0%nat := 300]> (ram CPU_init)) CPU_init in
  Cpu.pop 9 s =
    (Raise (Exception "Unsupported ALU operation"),
     set_reg (<[Z.to_nat (9 mod 8) := 300 mod 256]> (reg s)) s).
Proof.
  intros s.
  refine (proj2 (minimal_pop_never_returns 9 s 0 _ _) 300 _);
    by vm_compute.
Defined.
